(** * PsyDoom MAPINFO: tokens, linked tokens and blocks

    A shallow embedding of the MAPINFO query layer declared in the
    [MapInfo] namespace: [TextLoc], [Token], [LinkedToken], [Block] and
    the [error] primitive.

    - Text pointers ([const char*]) are addresses [Z] into a flat text
      memory [Mem], in which every address can be read; what is proved
      holds for every content of that memory.
    - [LinkedToken*] is an optional index into the token arena
      ([MapInfo::tokens]); [None] is [nullptr].
    - Loops over [pNext] / [pNextData] take fuel, because nothing in the
      types rules out a cyclic chain.
    - [float] is IEEE-754 binary32, through the Standard Library's
      [SpecFloat] with [prec = 24] and [emax = 128]. *)

From Stdlib Require Import ZArith Lia List Ascii String Bool.
From Stdlib Require Import Floats.SpecFloat.
From stdpp Require Import base list pretty.

Local Open Scope Z_scope.

(* ===================================================================== *)
(** ** Machine integers *)

Definition INT32_MAX : Z := 2147483647.
Definition INT32_MIN : Z := -2147483648.

(** Conversion to [uint32_t]: reduction modulo 2^32. *)
Definition wrap_u32 (z : Z) : Z := z mod 4294967296.

(** Conversion to [int32_t], and the result of [int32_t] arithmetic: two's
    complement wrap-around. (C++ leaves signed overflow undefined; this is
    what the compiled increment and addition do.) *)
Definition wrap_i32 (z : Z) : Z := (z + 2147483648) mod 4294967296 - 2147483648.

Definition in_int32 (z : Z) : bool := (INT32_MIN <=? z) && (z <=? INT32_MAX).

(* ===================================================================== *)
(** ** What a call can do *)

(** A call returns, or ends the program through [FatalErrors::raiseF] with
    the formatted text, or has no defined behaviour (a null or dangling
    [LinkedToken*] is dereferenced, a [float] that does not fit is cast to
    [int32_t]), or is still walking a chain when the fuel is gone. *)
Inductive outcome (A : Type) : Type :=
| Ret (a : A)
| Fatal (text : string)
| Undefined
| OutOfFuel.

Arguments Ret {A} a.
Arguments Fatal {A} text.
Arguments Undefined {A}.
Arguments OutOfFuel {A}.

Definition bind {A B : Type} (x : outcome A) (k : A -> outcome B) : outcome B :=
  match x with
  | Ret a => k a
  | Fatal t => Fatal t
  | Undefined => Undefined
  | OutOfFuel => OutOfFuel
  end.

Notation "x <- e ;; k" := (bind e (fun x => k))
  (at level 100, e at next level, right associativity).

Definition is_fatal {A : Type} (x : outcome A) : bool :=
  match x with Fatal _ => true | _ => false end.

(* ===================================================================== *)
(** ** binary32 numbers *)

Definition float : Type := spec_float.

(** [(float) z] for an integer [z]: round to nearest, ties to even. *)
Definition float_of_int (z : Z) : float := binary_normalize 24 128 z 0 false.

(** The literals [1.0f] and [0.0f]. *)
Definition f_one : float := Eval cbv in float_of_int 1.
Definition f_zero : float := S754_zero false.

(** [(int32_t) f]: the fractional part is discarded; the behaviour is
    undefined when the truncated value does not fit, and for NaN and the
    infinities. *)
Definition int32_of_float (f : float) : outcome Z :=
  match f with
  | S754_zero _ => Ret 0
  | S754_finite s m e =>
      let mag := Z.shiftl (Zpos m) e in
      let v := if s then - mag else mag in
      if in_int32 v then Ret v else Undefined
  | S754_infinity _ => Undefined
  | S754_nan => Undefined
  end.

(* ===================================================================== *)
(** ** Text memory *)

(** The bytes behind every [const char*]. *)
Definition Mem : Type := Z -> ascii.

Definition NUL : ascii := Ascii.zero.

Definition is_nul (c : ascii) : bool := Ascii.eqb c NUL.

(** Modelled from the C library: [std::toupper] in the default "C" locale
    maps 'a'..'z' to 'A'..'Z' and leaves every other character alone. *)
Definition toupper (c : ascii) : ascii :=
  let n := N_of_ascii c in
  if ((97 <=? n) && (n <=? 122))%N then ascii_of_N (n - 32) else c.

(** The [n] characters stored from address [p] on. *)
Fixpoint read (m : Mem) (p : Z) (n : nat) : list ascii :=
  match n with
  | O => []
  | S n' => m p :: read m (p + 1) n'
  end.

(** [cstring m p s]: [p] points to the NUL-terminated string [s]. *)
Definition cstring (m : Mem) (p : Z) (s : list ascii) : Prop :=
  read m p (length s) = s /\ Forall (fun c => c <> NUL) s /\
  m (p + Z.of_nat (length s)) = NUL.

(** A memory holding [l] from address 0 on and NUL everywhere else. *)
Definition mem_of (l : list ascii) : Mem :=
  fun p => if p <? 0 then NUL else nth (Z.to_nat p) l NUL.

(* ===================================================================== *)
(** ** TextLoc, TokenType, Token *)

Record TextLoc : Type := {
  line : Z;      (* uint32_t, zero based *)
  column : Z;    (* uint32_t, zero based *)
  pStr : Z       (* const char* *)
}.

Inductive TokenType : Type :=
| TT_Null
| TT_Identifier
| TT_String
| TT_Number
| TT_True
| TT_False
| TT_Equals
| TT_OpenBlock
| TT_CloseBlock
| TT_NextValue.

Definition TokenType_eqb (a b : TokenType) : bool :=
  match a, b with
  | TT_Null, TT_Null | TT_Identifier, TT_Identifier | TT_String, TT_String
  | TT_Number, TT_Number | TT_True, TT_True | TT_False, TT_False
  | TT_Equals, TT_Equals | TT_OpenBlock, TT_OpenBlock
  | TT_CloseBlock, TT_CloseBlock | TT_NextValue, TT_NextValue => true
  | _, _ => false
  end.

Record Token : Type := {
  begin : TextLoc;
  end_ : TextLoc;       (* one character past the end *)
  type : TokenType;
  number : float
}.

(** [std::string_view]: a start address and a length. *)
Record string_view : Type := { sv_data : Z; sv_size : Z }.

(** The characters a view denotes. *)
Definition view_chars (m : Mem) (v : string_view) : list ascii :=
  read m (sv_data v) (Z.to_nat (sv_size v)).

(** [Token::size]. *)
Definition size (t : Token) : Z := wrap_i32 (pStr (end_ t) - pStr (begin t)).

(** [Token::textBegin], [Token::textEnd]. *)
Definition textBegin (t : Token) : Z :=
  if TokenType_eqb (type t) TT_String then pStr (begin t) + 1 else pStr (begin t).

Definition textEnd (t : Token) : Z :=
  if TokenType_eqb (type t) TT_String then pStr (end_ t) - 1 else pStr (end_ t).

(** The loop of [Token::textEqualsIgnoreCase] together with the final
    [return]. [n] is the number of characters left between [pThis] and
    [pThisEnd], so [n = 0] is the loop test [pThis < pThisEnd] failing. *)
Fixpoint textEquals_loop (m : Mem) (n : nat) (pThis pOther : Z) : bool :=
  match n with
  | O => is_nul (m pOther)
  | S n' =>
      let c1 := toupper (m pThis) in
      let c2 := toupper (m pOther) in
      if negb (Ascii.eqb c1 c2) then false
      else if is_nul c1 then is_nul (m (pOther + 1))    (* break *)
      else textEquals_loop m n' (pThis + 1) (pOther + 1)
  end.

(** [Token::textEqualsIgnoreCase]. *)
Definition textEqualsIgnoreCase (m : Mem) (t : Token) (pOther : Z) : bool :=
  textEquals_loop m (Z.to_nat (textEnd t - textBegin t)) (textBegin t) pOther.

(** [Token::text]. *)
Definition text (t : Token) : string_view :=
  let pBeg := textBegin t in
  let pEnd := textEnd t in
  if pBeg <? pEnd then {| sv_data := pBeg; sv_size := pEnd - pBeg |}
  else {| sv_data := pBeg; sv_size := 0 |}.

(** The raw lexed span of a token: the characters from [begin] to [end]. *)
Definition raw_span (m : Mem) (t : Token) : list ascii :=
  read m (pStr (begin t)) (Z.to_nat (pStr (end_ t) - pStr (begin t))).

(* ===================================================================== *)
(** ** LinkedToken, Block and the token arena *)

(** A [LinkedToken*]: [None] is [nullptr], [Some a] is [&tokens[a]]. *)
Definition ptr : Type := option nat.

Record LinkedToken : Type := {
  token : Token;
  pNext : ptr;
  pNextData : ptr
}.

Record Block : Type := {
  pType : ptr;
  pHeader : ptr;
  pValues : ptr
}.

(** [MapInfo::tokens]. *)
Abbreviation Arena := (list LinkedToken).

(** [*p]. *)
Definition deref (arena : Arena) (p : ptr) : outcome LinkedToken :=
  match p with
  | None => Undefined
  | Some a =>
      match arena !! a with
      | Some lt => Ret lt
      | None => Undefined
      end
  end.

(** [chain arena next p l]: following the link [next] from [p] goes through
    the arena entries [l], in this order, and then reaches an absent link. *)
Inductive chain (arena : Arena) (next : LinkedToken -> ptr) : ptr -> list nat -> Prop :=
| chain_end : chain arena next None []
| chain_step (a : nat) (lt : LinkedToken) (l : list nat) :
    arena !! a = Some lt ->
    chain arena next (next lt) l ->
    chain arena next (Some a) (a :: l).

(* ===================================================================== *)
(** ** MapInfo::error *)

Definition newline : string := String "010"%char EmptyString.

(** [error(loc, errorFmtStr)] for a format string without conversions (no
    '%', as are all the messages of this header, which pass no further
    argument): the two [snprintf] calls fill [locStr[128]] and
    [msgStr[256]], and [FatalErrors::raiseF] receives both, one per line.
    A format string with a '%' is outside this definition. *)
Definition error {A : Type} (loc : TextLoc) (errorFmtStr : string) : outcome A :=
  let locStr :=
    substring 0 127
      ("Error parsing MAPINFO at line " ++ pretty (wrap_u32 (line loc + 1)) ++
       " column " ++ pretty (wrap_u32 (column loc + 1)) ++ "!")%string in
  let msgStr := substring 0 255 errorFmtStr in
  Fatal (locStr ++ newline ++ msgStr)%string.

(** The overload [error(block, errorFmtStr)]: an error at the start of the
    block. *)
Definition error_block {A : Type} (arena : Arena) (block : Block)
    (errorFmtStr : string) : outcome A :=
  ty <- deref arena (pType block) ;;
  error (begin (token ty)) errorFmtStr.

Definition INVALID_HEADER : string :=
  "MAPINFO block has an invalid header! See PsyDoom's MAPINFO docs for the expected format.".

(* ===================================================================== *)
(** ** LinkedToken::numTokensAhead, numDataTokensAhead *)

(** The counting loop of both functions; [next] is the field the loop
    follows. One unit of fuel is one iteration. *)
Fixpoint count_ahead (next : LinkedToken -> ptr) (fuel : nat) (arena : Arena)
    (pToken : ptr) (count : Z) : outcome Z :=
  match pToken with
  | None => Ret count
  | Some a =>
      match fuel with
      | O => OutOfFuel
      | S fuel' =>
          lt <- deref arena (Some a) ;;
          count_ahead next fuel' arena (next lt) (wrap_i32 (count + 1))
      end
  end.

Definition numTokensAhead (fuel : nat) (arena : Arena) (this : LinkedToken) : outcome Z :=
  count_ahead pNext fuel arena (pNext this) 0.

Definition numDataTokensAhead (fuel : nat) (arena : Arena) (this : LinkedToken) : outcome Z :=
  count_ahead pNextData fuel arena (pNextData this) 0.

(* ===================================================================== *)
(** ** Block *)

(** [Block::getHeaderTokenCount]. *)
Definition getHeaderTokenCount (fuel : nat) (arena : Arena) (b : Block) : outcome Z :=
  match pHeader b with
  | None => Ret 0
  | Some a =>
      hd <- deref arena (Some a) ;;
      n <- numTokensAhead fuel arena hd ;;
      Ret (wrap_i32 (1 + n))
  end.

(** The loop of [Block::getHeaderTokenWithIndex]; [i] and [index] are
    [uint32_t]. *)
Fixpoint header_loop (fuel : nat) (arena : Arena) (pCurToken : ptr) (i index : Z)
    : outcome ptr :=
  match pCurToken with
  | None => Ret None
  | Some a =>
      match fuel with
      | O => OutOfFuel
      | S fuel' =>
          if i =? index then Ret (Some a)
          else
            lt <- deref arena (Some a) ;;
            header_loop fuel' arena (pNext lt) (wrap_u32 (i + 1)) index
      end
  end.

(** [Block::getHeaderTokenWithIndex]. *)
Definition getHeaderTokenWithIndex (fuel : nat) (arena : Arena) (b : Block) (index : Z)
    : outcome ptr :=
  header_loop fuel arena (pHeader b) 0 index.


(** [Block::getRequiredHeaderToken]; [index] is an [int32_t], converted to
    [uint32_t] by the call. *)
Definition getRequiredHeaderToken (fuel : nat) (arena : Arena) (b : Block) (index : Z)
    : outcome LinkedToken :=
  pToken <- getHeaderTokenWithIndex fuel arena b (wrap_u32 index) ;;
  match pToken with
  | None =>
      ty <- deref arena (pType b) ;;
      error (end_ (token ty)) INVALID_HEADER
  | Some a => deref arena (Some a)
  end.

(** [Block::getRequiredHeaderNumber]. *)
Definition getRequiredHeaderNumber (fuel : nat) (arena : Arena) (b : Block) (index : Z)
    : outcome float :=
  lt <- getRequiredHeaderToken fuel arena b index ;;
  let tokenType := type (token lt) in
  if TokenType_eqb tokenType TT_Number then Ret (number (token lt))
  else if TokenType_eqb tokenType TT_True then Ret f_one
  else if TokenType_eqb tokenType TT_False then Ret f_zero
  else
    ty <- deref arena (pType b) ;;
    error (end_ (token ty)) INVALID_HEADER.

(** [Block::getRequiredHeaderInt]. *)
Definition getRequiredHeaderInt (fuel : nat) (arena : Arena) (b : Block) (index : Z)
    : outcome Z :=
  x <- getRequiredHeaderNumber fuel arena b index ;;
  int32_of_float x.

(** The loop of [Block::getValue]. *)
Fixpoint value_loop (fuel : nat) (arena : Arena) (m : Mem) (pCurToken : ptr) (name : Z)
    : outcome ptr :=
  match pCurToken with
  | None => Ret None
  | Some a =>
      match fuel with
      | O => OutOfFuel
      | S fuel' =>
          lt <- deref arena (Some a) ;;
          if textEqualsIgnoreCase m (token lt) name then Ret (Some a)
          else value_loop fuel' arena m (pNext lt) name
      end
  end.

(** [Block::getValue]. *)
Definition getValue (fuel : nat) (arena : Arena) (m : Mem) (b : Block) (name : Z)
    : outcome ptr :=
  value_loop fuel arena m (pValues b) name.

(** [(pToken) ? pToken->pNextData : nullptr]. *)
Definition data_of (arena : Arena) (pToken : ptr) : outcome ptr :=
  match pToken with
  | None => Ret None
  | Some a => lt <- deref arena (Some a) ;; Ret (pNextData lt)
  end.

(** [Block::getSingleNumberValue]. *)
Definition getSingleNumberValue (fuel : nat) (arena : Arena) (m : Mem) (b : Block)
    (name : Z) (defaultValue : float) : outcome float :=
  pToken <- getValue fuel arena m b name ;;
  pDataToken <- data_of arena pToken ;;
  match pDataToken with
  | Some d =>
      dt <- deref arena (Some d) ;;
      let dataType := type (token dt) in
      if TokenType_eqb dataType TT_Number then Ret (number (token dt))
      else if TokenType_eqb dataType TT_True then Ret f_one
      else if TokenType_eqb dataType TT_False then Ret f_zero
      else Ret defaultValue
  | None =>
      (* a value with no data is a flag set to true *)
      Ret (match pToken with Some _ => f_one | None => defaultValue end)
  end.

(** [Block::getSingleIntValue]. *)
Definition getSingleIntValue (fuel : nat) (arena : Arena) (m : Mem) (b : Block)
    (name : Z) (defaultValue : Z) : outcome Z :=
  x <- getSingleNumberValue fuel arena m b name (float_of_int defaultValue) ;;
  int32_of_float x.

Section SmallString.

(** [SmallString.h] is not part of the sources at hand: the small string
    type and its constructor [SmallStrT(const char*, uint32_t)] are
    parameters. *)
Variable SmallStrT : Type.
Variable SmallStr : Mem -> Z -> Z -> SmallStrT.

(** [SmallStrT(text.data(), (uint32_t) text.size())]. *)
Definition small_of_view (m : Mem) (v : string_view) : SmallStrT :=
  SmallStr m (sv_data v) (wrap_u32 (sv_size v)).

(** [Block::getRequiredHeaderSmallString]. *)
Definition getRequiredHeaderSmallString (fuel : nat) (arena : Arena) (m : Mem)
    (b : Block) (index : Z) : outcome SmallStrT :=
  lt <- getRequiredHeaderToken fuel arena b index ;;
  Ret (small_of_view m (text (token lt))).

(** [Block::getSingleSmallStringValue]. *)
Definition getSingleSmallStringValue (fuel : nat) (arena : Arena) (m : Mem)
    (b : Block) (name : Z) (defaultValue : SmallStrT) : outcome SmallStrT :=
  pToken <- getValue fuel arena m b name ;;
  pDataToken <- data_of arena pToken ;;
  match pDataToken with
  | Some d =>
      dt <- deref arena (Some d) ;;
      Ret (small_of_view m (text (token dt)))
  | None => Ret defaultValue
  end.

End SmallString.

Arguments small_of_view {SmallStrT} SmallStr m v.
Arguments getRequiredHeaderSmallString {SmallStrT} SmallStr fuel arena m b index.
Arguments getSingleSmallStringValue {SmallStrT} SmallStr fuel arena m b name defaultValue.

(* ===================================================================== *)
(** ** The chain walks, with the entries they visit *)

(** The four loops over a chain once more, each returning next to its
    result the arena entries its body ran on, in order. The lemmas
    [*_visits_erase] state that the results are those of the loops above. *)
Module Visits.

Fixpoint count_ahead (next : LinkedToken -> ptr) (fuel : nat) (arena : Arena)
    (pToken : ptr) (count : Z) (seen : list nat) : outcome (Z * list nat) :=
  match pToken with
  | None => Ret (count, seen)
  | Some a =>
      match fuel with
      | O => OutOfFuel
      | S fuel' =>
          lt <- deref arena (Some a) ;;
          count_ahead next fuel' arena (next lt) (wrap_i32 (count + 1)) (seen ++ [a])
      end
  end.

Definition numTokensAhead (fuel : nat) (arena : Arena) (this : LinkedToken) :=
  count_ahead pNext fuel arena (pNext this) 0 [].

Definition numDataTokensAhead (fuel : nat) (arena : Arena) (this : LinkedToken) :=
  count_ahead pNextData fuel arena (pNextData this) 0 [].

Fixpoint header_loop (fuel : nat) (arena : Arena) (pCurToken : ptr) (i index : Z)
    (seen : list nat) : outcome (ptr * list nat) :=
  match pCurToken with
  | None => Ret (None, seen)
  | Some a =>
      match fuel with
      | O => OutOfFuel
      | S fuel' =>
          if i =? index then Ret (Some a, seen ++ [a])
          else
            lt <- deref arena (Some a) ;;
            header_loop fuel' arena (pNext lt) (wrap_u32 (i + 1)) index (seen ++ [a])
      end
  end.

Definition getHeaderTokenWithIndex (fuel : nat) (arena : Arena) (b : Block) (index : Z) :=
  header_loop fuel arena (pHeader b) 0 index [].

Fixpoint value_loop (fuel : nat) (arena : Arena) (m : Mem) (pCurToken : ptr) (name : Z)
    (seen : list nat) : outcome (ptr * list nat) :=
  match pCurToken with
  | None => Ret (None, seen)
  | Some a =>
      match fuel with
      | O => OutOfFuel
      | S fuel' =>
          lt <- deref arena (Some a) ;;
          if textEqualsIgnoreCase m (token lt) name then Ret (Some a, seen ++ [a])
          else value_loop fuel' arena m (pNext lt) name (seen ++ [a])
      end
  end.

Definition getValue (fuel : nat) (arena : Arena) (m : Mem) (b : Block) (name : Z) :=
  value_loop fuel arena m (pValues b) name [].

(** Forgetting the visited entries. *)
Definition result {A : Type} (x : outcome (A * list nat)) : outcome A :=
  p <- x ;; Ret (fst p).

End Visits.

(* ===================================================================== *)
(** ** Vocabulary of the statements *)

(** Whether arena entry [a] is a value named [name]. *)
Definition named (arena : Arena) (m : Mem) (name : Z) (a : nat) : bool :=
  match arena !! a with
  | Some lt => textEqualsIgnoreCase m (token lt) name
  | None => false
  end.

(** The arena in which entry [d] has no further data token after it. *)
Definition truncate_data (arena : Arena) (d : nat) : Arena :=
  match arena !! d with
  | Some dt =>
      <[d := {| token := token dt; pNext := pNext dt; pNextData := None |}]> arena
  | None => arena
  end.

(** What the number accessors make of a data token. *)
Definition number_kind (ty : TokenType) : bool :=
  match ty with
  | TT_Number | TT_True | TT_False => true
  | _ => false
  end.

(** What [getSingleNumberValue] returns for the data token it consults. *)
Definition number_of (dt : LinkedToken) (defaultValue : float) : float :=
  match type (token dt) with
  | TT_Number => number (token dt)
  | TT_True => f_one
  | TT_False => f_zero
  | _ => defaultValue
  end.

(* ===================================================================== *)
(** ** A sample document

    [Map 1 "E1M1" true { Music = 5 NoIntermission SpecialAction = 3, "Open", true Sky = "SKY01" }]
    on one line, followed in memory by the names looked up in it. *)
Module Sample.

Definition dq : ascii := "034"%char.
Definition chars (s : string) : list ascii := list_ascii_of_string s.

Definition source : list ascii :=
  chars "Map 1 " ++ [dq] ++ chars "E1M1" ++ [dq] ++
  chars " true { Music = 5 NoIntermission SpecialAction = 3, " ++
  [dq] ++ chars "Open" ++ [dq] ++ chars ", true Sky = " ++
  [dq] ++ chars "SKY01" ++ [dq] ++ chars " }".

(** The names, at 93, 99, 114, 128 and 135. *)
Definition mem : Mem :=
  mem_of (source ++ [NUL] ++ chars "music" ++ [NUL] ++ chars "NOINTERMISSION" ++ [NUL] ++
          chars "SpecialAction" ++ [NUL] ++ chars "Secret" ++ [NUL] ++ chars "sky" ++ [NUL]).

Definition n_music : Z := 93.
Definition n_nointermission : Z := 99.
Definition n_specialaction : Z := 114.
Definition n_secret : Z := 128.
Definition n_sky : Z := 135.

Definition loc (off : Z) : TextLoc := {| line := 0; column := off; pStr := off |}.

Definition tok (b e : Z) (ty : TokenType) (x : float) : Token :=
  {| begin := loc b; end_ := loc e; type := ty; number := x |}.

Definition link (t : Token) (n d : ptr) : LinkedToken :=
  {| token := t; pNext := n; pNextData := d |}.

Definition arena : Arena :=
  [ link (tok 0 3 TT_Identifier f_zero) None None;                        (* 0: Map *)
    link (tok 4 5 TT_Number (float_of_int 1)) (Some 2%nat) None;          (* 1: 1 *)
    link (tok 6 12 TT_String f_zero) (Some 3%nat) None;                   (* 2: "E1M1" *)
    link (tok 13 17 TT_True f_zero) None None;                            (* 3: true *)
    link (tok 20 25 TT_Identifier f_zero) (Some 6%nat) (Some 5%nat);      (* 4: Music *)
    link (tok 28 29 TT_Number (float_of_int 5)) None None;                (* 5: 5 *)
    link (tok 30 44 TT_Identifier f_zero) (Some 7%nat) None;              (* 6: NoIntermission *)
    link (tok 45 58 TT_Identifier f_zero) (Some 11%nat) (Some 8%nat);     (* 7: SpecialAction *)
    link (tok 61 62 TT_Number (float_of_int 3)) None (Some 9%nat);        (* 8: 3 *)
    link (tok 64 70 TT_String f_zero) None (Some 10%nat);                 (* 9: "Open" *)
    link (tok 72 76 TT_True f_zero) None None;                            (* 10: true *)
    link (tok 77 80 TT_Identifier f_zero) None (Some 12%nat);             (* 11: Sky *)
    link (tok 83 90 TT_String f_zero) None None ].                        (* 12: "SKY01" *)

Definition block : Block :=
  {| pType := Some 0%nat; pHeader := Some 1%nat; pValues := Some 4%nat |}.

(** A stand-in for the small string types: the characters themselves. *)
Definition Str (m : Mem) (p n : Z) : list ascii := read m p (Z.to_nat n).

End Sample.

(* ===================================================================== *)
(** ** Further inputs *)

(** The token [Map] and the strings [MAP] and [Maps]. *)
Module MapText.

Definition mem : Mem :=
  mem_of (Sample.chars "Map" ++ [NUL] ++ Sample.chars "MAP" ++ [NUL] ++
          Sample.chars "Maps" ++ [NUL]).

Definition tok : Token := Sample.tok 0 3 TT_Identifier f_zero.
Definition upper : Z := 4.
Definition longer : Z := 8.

End MapText.

(** A String token whose text holds a NUL: the five bytes ["a\0b"], quotes
    included, at 0..4, and the comparison string [a] in the three-byte
    array ['a', 0, 0] at 5..7. *)
Module NulToken.

Definition mem : Mem :=
  mem_of [Sample.dq; "a"; NUL; "b"; Sample.dq; "a"; NUL; NUL]%char.

Definition tok : Token := Sample.tok 0 5 TT_String f_zero.
Definition other : Z := 5.

End NulToken.

(** A block with [n] header tokens: the arena holds the header tokens at
    0 .. n-1, each linked to the next, and the type token at [n]. *)
Module LongHeader.

Definition header (n i : nat) : LinkedToken :=
  Sample.link (Sample.tok 4 5 TT_Number (float_of_int 1))
              (if Nat.ltb (S i) n then Some (S i) else None) None.

Definition arena (n : nat) : Arena :=
  (header n <$> seq 0 n) ++ [Sample.link (Sample.tok 0 3 TT_Identifier f_zero) None None].

Definition block (n : nat) : Block :=
  {| pType := Some n; pHeader := Some 0%nat; pValues := None |}.

(** 2^31 header tokens. *)
Definition entries : nat := Z.to_nat 2147483648.

End LongHeader.

(* ===================================================================== *)
(** ** Well-formed arenas *)




(** The sample document again, followed in memory by two spellings of one
    name, at 93 and 99. *)
Module Spellings.

Definition mem : Mem :=
  mem_of (Sample.source ++ [NUL] ++ Sample.chars "music" ++ [NUL] ++
          Sample.chars "MuSiC" ++ [NUL]).

Definition lower : Z := 93.
Definition mixed : Z := 99.

End Spellings.

(** A token whose [pNext] and [pNextData] links point back to itself. *)
Module Cyclic.

Definition first : LinkedToken :=
  Sample.link (Sample.tok 4 5 TT_Number (float_of_int 1)) (Some 0%nat) (Some 0%nat).

Definition arena : Arena := [first].

End Cyclic.

(** ** Decimal digits *)

Definition digit (c : ascii) : Prop := (48 <= N_of_ascii c <= 57)%N.

Fixpoint all_digits (s : string) : Prop :=
  match s with
  | EmptyString => True
  | String c s' => digit c /\ all_digits s'
  end.

(** ** Format strings *)

(** A format string without conversions: it holds no '%', so [snprintf]
    copies it as it is. *)
Fixpoint plain_text (s : string) : Prop :=
  match s with
  | EmptyString => True
  | String c s' => c <> "%"%char /\ plain_text s'
  end.

(* ===================================================================== *)
(** * Properties *)

(** ** Machine integers *)

Lemma wrap_i32_id (z : Z) : INT32_MIN <= z <= INT32_MAX -> wrap_i32 z = z.
Proof.
  unfold wrap_i32, INT32_MIN, INT32_MAX. intros H.
  rewrite Z.mod_small by lia. lia.
Qed.

Lemma wrap_i32_add_l (x y : Z) : wrap_i32 (wrap_i32 x + y) = wrap_i32 (x + y).
Proof.
  unfold wrap_i32.
  replace ((x + 2147483648) mod 4294967296 - 2147483648 + y + 2147483648)
    with ((x + 2147483648) mod 4294967296 + y) by lia.
  rewrite Zplus_mod_idemp_l. f_equal. f_equal. lia.
Qed.

Lemma wrap_u32_id (z : Z) : 0 <= z < 4294967296 -> wrap_u32 z = z.
Proof. intros H. unfold wrap_u32. apply Z.mod_small. lia. Qed.

(** ** Characters and text memory *)

Lemma toupper_nul (c : ascii) : toupper c = NUL <-> c = NUL.
Proof.
  destruct c as [[] [] [] [] [] [] [] []]; vm_compute; split; congruence.
Qed.

Lemma is_nul_true (c : ascii) : is_nul c = true <-> c = NUL.
Proof. unfold is_nul. apply Ascii.eqb_eq. Qed.

Lemma is_nul_false (c : ascii) : is_nul c = false <-> c <> NUL.
Proof. unfold is_nul. apply Ascii.eqb_neq. Qed.

Lemma read_length (m : Mem) (n : nat) : forall p, length (read m p n) = n.
Proof. induction n as [|n IH]; intros p; simpl; [reflexivity | now rewrite IH]. Qed.

Lemma read_tail (m : Mem) (n : nat) (p : Z) : tl (read m p (S n)) = read m (p + 1) n.
Proof. reflexivity. Qed.

Lemma read_removelast (m : Mem) (n : nat) : forall p, removelast (read m p (S n)) = read m p n.
Proof.
  induction n as [|n IH]; intros p; [reflexivity|].
  change (read m p (S (S n))) with (m p :: read m (p + 1) (S n)).
  change (read m p (S n)) with (m p :: read m (p + 1) n).
  rewrite <- IH. reflexivity.
Qed.

(** ** Token text *)

Lemma text_chars (m : Mem) (t : Token) :
  view_chars m (text t) = read m (textBegin t) (Z.to_nat (textEnd t - textBegin t)).
Proof.
  unfold view_chars, text.
  destruct (Z.ltb_spec (textBegin t) (textEnd t)) as [H|H]; simpl; [reflexivity|].
  replace (Z.to_nat (textEnd t - textBegin t)) with 0%nat by lia. reflexivity.
Qed.

Lemma text_data (t : Token) : sv_data (text t) = textBegin t.
Proof. unfold text. destruct (textBegin t <? textEnd t); reflexivity. Qed.

Lemma text_size (t : Token) : sv_size (text t) = Z.max 0 (textEnd t - textBegin t).
Proof.
  unfold text. destruct (Z.ltb_spec (textBegin t) (textEnd t)); simpl; lia.
Qed.

Lemma textBegin_String (t : Token) : type t = TT_String -> textBegin t = pStr (begin t) + 1.
Proof. unfold textBegin. intros ->. reflexivity. Qed.

Lemma textEnd_String (t : Token) : type t = TT_String -> textEnd t = pStr (end_ t) - 1.
Proof. unfold textEnd. intros ->. reflexivity. Qed.

Lemma textBegin_other (t : Token) : type t <> TT_String -> textBegin t = pStr (begin t).
Proof. unfold textBegin. destruct (type t); simpl; congruence. Qed.

Lemma textEnd_other (t : Token) : type t <> TT_String -> textEnd t = pStr (end_ t).
Proof. unfold textEnd. destruct (type t); simpl; congruence. Qed.

(** C6. The text of a String token is its lexed span without the first and
    the last character (the two quotes); the text of a token of any other
    kind is its lexed span, from [begin] to [end], as it is. *)
Theorem text_strips_the_quotes_of_strings_only (m : Mem) (t : Token) :
  (type t = TT_String ->
     sv_data (text t) = pStr (begin t) + 1 /\
     view_chars m (text t) = removelast (tl (raw_span m t))) /\
  (type t <> TT_String ->
     sv_data (text t) = pStr (begin t) /\
     sv_size (text t) = Z.max 0 (pStr (end_ t) - pStr (begin t)) /\
     view_chars m (text t) = raw_span m t).
Proof.
  split; intros Hty.
  - split.
    + rewrite text_data. now apply textBegin_String.
    + rewrite text_chars, textBegin_String, textEnd_String by assumption.
      unfold raw_span.
      destruct (Z.to_nat (pStr (end_ t) - pStr (begin t))) as [|[|k]] eqn:Hn.
      * replace (Z.to_nat (pStr (end_ t) - 1 - (pStr (begin t) + 1))) with 0%nat by lia.
        reflexivity.
      * replace (Z.to_nat (pStr (end_ t) - 1 - (pStr (begin t) + 1))) with 0%nat by lia.
        reflexivity.
      * replace (Z.to_nat (pStr (end_ t) - 1 - (pStr (begin t) + 1))) with k by lia.
        rewrite read_tail, read_removelast. reflexivity.
  - rewrite text_data, text_size, text_chars.
    rewrite textBegin_other, textEnd_other by assumption.
    repeat split; reflexivity.
Qed.

(** C10. [text] is a total function whose view never has a negative
    length. For a String token the length is the stored span minus the two
    quotes, cut off at zero: a String token of two characters or fewer has
    the empty text. *)
Theorem text_of_a_short_string_is_empty (t : Token) :
  0 <= sv_size (text t) /\
  (type t = TT_String ->
     sv_size (text t) = Z.max 0 (pStr (end_ t) - pStr (begin t) - 2) /\
     (pStr (end_ t) - pStr (begin t) <= 2 ->
        text t = {| sv_data := pStr (begin t) + 1; sv_size := 0 |})).
Proof.
  split; [rewrite text_size; lia|].
  intros Hty. split.
  - rewrite text_size, textBegin_String, textEnd_String by assumption. lia.
  - intros Hshort. unfold text.
    rewrite textBegin_String, textEnd_String by assumption.
    destruct (Z.ltb_spec (pStr (begin t) + 1) (pStr (end_ t) - 1)); [lia | reflexivity].
Qed.

(** ** Comparing a token's text with a C string *)

Lemma cstring_nil (m : Mem) (p : Z) : cstring m p [] -> m p = NUL.
Proof. intros (_ & _ & H). simpl in H. now rewrite Z.add_0_r in H. Qed.

Lemma cstring_cons (m : Mem) (p : Z) (c : ascii) (s : list ascii) :
  cstring m p (c :: s) -> m p = c /\ c <> NUL /\ cstring m (p + 1) s.
Proof.
  intros (Hr & Hn & Ht). simpl in Hr. injection Hr as Hc Hr.
  apply Forall_cons_1 in Hn as [Hc0 Hn].
  repeat split; try assumption.
  rewrite <- Ht. f_equal. simpl length. lia.
Qed.

(** The loop decides equality up to case, as long as the token's text
    holds no NUL. *)
Lemma textEquals_loop_spec (m : Mem) (n : nat) :
  forall (pThis pOther : Z) (s : list ascii),
    Forall (fun c => c <> NUL) (read m pThis n) ->
    cstring m pOther s ->
    textEquals_loop m n pThis pOther = true <->
    map toupper (read m pThis n) = map toupper s.
Proof.
  induction n as [|n IH]; intros pThis pOther s Hnn Hs.
  - simpl. destruct s as [|c s].
    + apply cstring_nil in Hs. rewrite Hs. split; reflexivity.
    + apply cstring_cons in Hs as (Hc & Hc0 & _). rewrite Hc.
      apply is_nul_false in Hc0. rewrite Hc0. split; discriminate.
  - simpl in Hnn. apply Forall_cons_1 in Hnn as [Hc1 Hnn]. simpl.
    assert (Hu1 : is_nul (toupper (m pThis)) = false).
    { apply is_nul_false. intros E. apply Hc1. now apply toupper_nul. }
    destruct s as [|c s].
    + apply cstring_nil in Hs. rewrite Hs.
      destruct (Ascii.eqb_spec (toupper (m pThis)) (toupper NUL)) as [E|E]; simpl.
      * exfalso. apply is_nul_false in Hu1. apply Hu1. rewrite E. reflexivity.
      * split; discriminate.
    + apply cstring_cons in Hs as (Hc & Hc0 & Hs). rewrite Hc.
      destruct (Ascii.eqb_spec (toupper (m pThis)) (toupper c)) as [E|E]; simpl.
      * rewrite Hu1, (IH _ _ s Hnn Hs), E. split; intros H; [now f_equal | now injection H].
      * split; [discriminate | intros H; injection H; congruence].
Qed.

(** The loop satisfies the equation of the source loop: the test
    [pThis < pThisEnd], the body, and the [return] after it. *)
Lemma textEquals_loop_unfold (m : Mem) (pThis pThisEnd pOther : Z) :
  textEquals_loop m (Z.to_nat (pThisEnd - pThis)) pThis pOther =
  if pThis <? pThisEnd then
    let c1 := toupper (m pThis) in
    let c2 := toupper (m pOther) in
    if negb (Ascii.eqb c1 c2) then false
    else if is_nul c1 then is_nul (m (pOther + 1))
    else textEquals_loop m (Z.to_nat (pThisEnd - (pThis + 1))) (pThis + 1) (pOther + 1)
  else is_nul (m pOther).
Proof.
  destruct (Z.ltb_spec pThis pThisEnd) as [H|H].
  - replace (Z.to_nat (pThisEnd - pThis)) with (S (Z.to_nat (pThisEnd - (pThis + 1)))) by lia.
    reflexivity.
  - replace (Z.to_nat (pThisEnd - pThis)) with 0%nat by lia. reflexivity.
Qed.

(** C5, amended. For a token whose text holds no NUL character and a
    NUL-terminated comparison string, [textEqualsIgnoreCase] is true exactly
    when the two texts are the same up to ASCII case; texts of different
    lengths are never equal. *)
Theorem textEqualsIgnoreCase_iff_same_up_to_case
    (m : Mem) (t : Token) (pOther : Z) (s : list ascii) :
  cstring m pOther s ->
  Forall (fun c => c <> NUL) (view_chars m (text t)) ->
  (textEqualsIgnoreCase m t pOther = true <->
     map toupper (view_chars m (text t)) = map toupper s) /\
  (length (view_chars m (text t)) <> length s ->
     textEqualsIgnoreCase m t pOther = false).
Proof.
  intros Hs Hnn. rewrite text_chars in *. unfold textEqualsIgnoreCase.
  pose proof (textEquals_loop_spec m _ (textBegin t) pOther s Hnn Hs) as Hiff.
  split; [exact Hiff|].
  intros Hlen. apply not_true_is_false. intros E.
  apply Hlen. apply Hiff in E.
  apply (f_equal (@length ascii)) in E. now rewrite !length_map in E.
Qed.

Lemma text_strips_the_quotes_of_strings_only_witness :
  type (Sample.tok 6 12 TT_String f_zero) = TT_String /\
  raw_span Sample.mem (Sample.tok 6 12 TT_String f_zero) =
    [Sample.dq] ++ Sample.chars "E1M1" ++ [Sample.dq] /\
  view_chars Sample.mem (text (Sample.tok 6 12 TT_String f_zero)) =
    removelast (tl (raw_span Sample.mem (Sample.tok 6 12 TT_String f_zero))) /\
  view_chars Sample.mem (text (Sample.tok 0 3 TT_Identifier f_zero)) =
    raw_span Sample.mem (Sample.tok 0 3 TT_Identifier f_zero).
Proof.
  split; [reflexivity|]. split; [reflexivity|]. split.
  - destruct (text_strips_the_quotes_of_strings_only Sample.mem
                (Sample.tok 6 12 TT_String f_zero)) as [H _].
    apply H. reflexivity.
  - destruct (text_strips_the_quotes_of_strings_only Sample.mem
                (Sample.tok 0 3 TT_Identifier f_zero)) as [_ H].
    apply H. discriminate.
Defined.

Lemma text_of_a_short_string_is_empty_witness :
  type (Sample.tok 6 8 TT_String f_zero) = TT_String /\
  text (Sample.tok 6 8 TT_String f_zero) = {| sv_data := 7; sv_size := 0 |} /\
  sv_size (text (Sample.tok 6 7 TT_String f_zero)) = 0.
Proof.
  split; [reflexivity|]. split.
  - destruct (text_of_a_short_string_is_empty (Sample.tok 6 8 TT_String f_zero)) as [_ H].
    destruct (H eq_refl) as [_ Hshort]. apply Hshort. simpl. lia.
  - destruct (text_of_a_short_string_is_empty (Sample.tok 6 7 TT_String f_zero)) as [_ H].
    destruct (H eq_refl) as [Hsize _]. exact Hsize.
Defined.

(** The two comparisons of the specification. *)
Example textEqualsIgnoreCase_Map_MAP :
  textEqualsIgnoreCase MapText.mem MapText.tok MapText.upper = true.
Proof. reflexivity. Qed.

Example textEqualsIgnoreCase_Map_Maps :
  textEqualsIgnoreCase MapText.mem MapText.tok MapText.longer = false.
Proof. reflexivity. Qed.

Lemma textEqualsIgnoreCase_iff_same_up_to_case_witness :
  cstring MapText.mem MapText.upper (Sample.chars "MAP") /\
  Forall (fun c => c <> NUL) (view_chars MapText.mem (text MapText.tok)) /\
  ((textEqualsIgnoreCase MapText.mem MapText.tok MapText.upper = true <->
      map toupper (view_chars MapText.mem (text MapText.tok)) =
      map toupper (Sample.chars "MAP")) /\
   (length (view_chars MapText.mem (text MapText.tok)) <> length (Sample.chars "MAP") ->
      textEqualsIgnoreCase MapText.mem MapText.tok MapText.upper = false)).
Proof.
  assert (Hs : cstring MapText.mem MapText.upper (Sample.chars "MAP")).
  { repeat split; repeat constructor; discriminate. }
  assert (Hn : Forall (fun c => c <> NUL) (view_chars MapText.mem (text MapText.tok))).
  { repeat constructor; discriminate. }
  split; [exact Hs|]. split; [exact Hn|].
  exact (textEqualsIgnoreCase_iff_same_up_to_case MapText.mem MapText.tok MapText.upper
           (Sample.chars "MAP") Hs Hn).
Defined.

(** C5 as stated fails on a token whose text holds a NUL: the text [a\0b]
    is three characters long, the comparison string [a] is one character
    long, and the comparison is true. *)
Lemma textEqualsIgnoreCase_true_on_different_lengths :
  cstring NulToken.mem NulToken.other ["a"%char] /\
  view_chars NulToken.mem (text NulToken.tok) = ["a"; NUL; "b"]%char /\
  map toupper (view_chars NulToken.mem (text NulToken.tok)) <> map toupper ["a"%char] /\
  textEqualsIgnoreCase NulToken.mem NulToken.tok NulToken.other = true.
Proof.
  split; [|split; [reflexivity | split; [discriminate | reflexivity]]].
  repeat split; repeat constructor; discriminate.
Qed.

(* ===================================================================== *)
(** ** Chains *)

Lemma chain_functional (arena : Arena) (next : LinkedToken -> ptr) (p : ptr) (l1 : list nat) :
  chain arena next p l1 -> forall l2, chain arena next p l2 -> l1 = l2.
Proof.
  induction 1 as [|a lt l Ha Hl IH]; intros l2 H2; inversion H2; subst.
  - reflexivity.
  - f_equal. apply IH. congruence.
Qed.

Lemma chain_from_member (arena : Arena) (next : LinkedToken -> ptr) (p : ptr) (l : list nat) :
  chain arena next p l ->
  forall a, a ∈ l -> exists l', chain arena next (Some a) l' /\ (length l' <= length l)%nat.
Proof.
  induction 1 as [|a lt l Ha Hl IH]; intros a0 Hin.
  - inversion Hin.
  - apply elem_of_cons in Hin as [->|Hin].
    + exists (a :: l). split; [now apply chain_step with lt | lia].
    + destruct (IH a0 Hin) as (l' & Hc & Hle). exists l'. split; [exact Hc | simpl; lia].
Qed.

(** A chain that ends goes through each of its entries once. *)
Lemma chain_NoDup (arena : Arena) (next : LinkedToken -> ptr) (p : ptr) (l : list nat) :
  chain arena next p l -> NoDup l.
Proof.
  induction 1 as [|a lt l Ha Hl IH]; [constructor|].
  apply NoDup_cons. split; [|exact IH].
  intros Hin.
  destruct (chain_from_member _ _ _ _ Hl a Hin) as (l' & Hc & Hle).
  assert (E : a :: l = l').
  { apply (chain_functional arena next (Some a)); [now apply chain_step with lt | exact Hc]. }
  subst l'. simpl in Hle. lia.
Qed.

(** Proves [chain arena next p l] on a concrete arena by walking it. *)
Ltac walk_chain := repeat (eapply chain_step; [reflexivity|]); apply chain_end.

(** An entry is not its own successor on a chain that ends. *)
Lemma chain_head_fresh (arena : Arena) (next : LinkedToken -> ptr) (a : nat)
    (lt : LinkedToken) (l : list nat) :
  chain arena next (Some a) l -> arena !! a = Some lt -> next lt <> Some a.
Proof.
  intros Hc Ha E. inversion Hc as [|a' lt' l' Ha' Hl']; subst.
  assert (lt' = lt) by congruence. subst lt'. rewrite E in Hl'.
  pose proof (chain_functional _ _ _ _ Hc _ Hl') as El.
  apply (f_equal (@length nat)) in El. simpl in El. lia.
Qed.

Lemma deref_lookup (arena : Arena) (a : nat) (lt : LinkedToken) :
  arena !! a = Some lt -> deref arena (Some a) = Ret lt.
Proof. intros H. unfold deref. now rewrite H. Qed.

(** ** The counting loops *)

Lemma count_ahead_chain (next : LinkedToken -> ptr) (arena : Arena) (p : ptr) (l : list nat) :
  chain arena next p l ->
  forall (fuel : nat) (c : Z), (length l <= fuel)%nat ->
    count_ahead next fuel arena p (wrap_i32 c) = Ret (wrap_i32 (c + Z.of_nat (length l))).
Proof.
  induction 1 as [|a lt l Ha Hl IH]; intros fuel c Hfuel.
  - destruct fuel; simpl; now rewrite Z.add_0_r.
  - destruct fuel as [|fuel]; [simpl in Hfuel; lia|].
    cbn [count_ahead]. rewrite (deref_lookup _ _ _ Ha). cbn [bind].
    rewrite wrap_i32_add_l, IH by (simpl in Hfuel; lia).
    do 2 f_equal. simpl length. lia.
Qed.

Lemma numTokensAhead_chain (arena : Arena) (this : LinkedToken) (l : list nat) (fuel : nat) :
  chain arena pNext (pNext this) l -> (length l <= fuel)%nat ->
  numTokensAhead fuel arena this = Ret (wrap_i32 (Z.of_nat (length l))).
Proof.
  intros Hc Hf. unfold numTokensAhead. change 0 with (wrap_i32 0) at 1.
  now rewrite (count_ahead_chain _ _ _ _ Hc).
Qed.

Lemma numDataTokensAhead_chain (arena : Arena) (this : LinkedToken) (l : list nat) (fuel : nat) :
  chain arena pNextData (pNextData this) l -> (length l <= fuel)%nat ->
  numDataTokensAhead fuel arena this = Ret (wrap_i32 (Z.of_nat (length l))).
Proof.
  intros Hc Hf. unfold numDataTokensAhead. change 0 with (wrap_i32 0) at 1.
  now rewrite (count_ahead_chain _ _ _ _ Hc).
Qed.

(** ** The header of a block *)

Lemma getHeaderTokenCount_chain (arena : Arena) (b : Block) (l : list nat) (fuel : nat) :
  chain arena pNext (pHeader b) l -> (length l <= fuel)%nat ->
  getHeaderTokenCount fuel arena b = Ret (wrap_i32 (Z.of_nat (length l))).
Proof.
  intros Hc Hf. unfold getHeaderTokenCount.
  inversion Hc as [Hp|a lt l' Ha Hl' Hp]; subst; [reflexivity|].
  rewrite (deref_lookup _ _ _ Ha). cbn [bind].
  rewrite (numTokensAhead_chain _ _ _ _ Hl') by (simpl in Hf; lia). cbn [bind].
  rewrite Z.add_comm, wrap_i32_add_l. do 2 f_equal. simpl length. lia.
Qed.

Lemma header_loop_chain (arena : Arena) (p : ptr) (l : list nat) :
  chain arena pNext p l ->
  forall (fuel : nat) (i index : Z),
    (length l <= fuel)%nat -> 0 <= i <= index -> index < 4294967296 ->
    header_loop fuel arena p i index = Ret (l !! Z.to_nat (index - i)).
Proof.
  induction 1 as [|a lt l Ha Hl IH]; intros fuel i index Hfuel Hi Hindex.
  - destruct fuel; reflexivity.
  - destruct fuel as [|fuel]; [simpl in Hfuel; lia|].
    cbn [header_loop]. destruct (Z.eqb_spec i index) as [E|E].
    + subst. now rewrite Z.sub_diag.
    + rewrite (deref_lookup _ _ _ Ha). cbn [bind].
      rewrite wrap_u32_id by lia.
      rewrite IH by (simpl in Hfuel; lia).
      replace (Z.to_nat (index - i)) with (S (Z.to_nat (index - (i + 1)))) by lia.
      reflexivity.
Qed.

Lemma getHeaderTokenWithIndex_chain (arena : Arena) (b : Block) (l : list nat)
    (fuel : nat) (index : Z) :
  chain arena pNext (pHeader b) l -> (length l <= fuel)%nat ->
  0 <= index < 4294967296 ->
  getHeaderTokenWithIndex fuel arena b index = Ret (l !! Z.to_nat index).
Proof.
  intros Hc Hf Hi. unfold getHeaderTokenWithIndex.
  rewrite (header_loop_chain _ _ _ Hc) by lia. now rewrite Z.sub_0_r.
Qed.

(** ** Looking a value up *)

Lemma value_loop_chain (arena : Arena) (m : Mem) (name : Z) (p : ptr) (l : list nat) :
  chain arena pNext p l ->
  forall fuel : nat, (length l <= fuel)%nat ->
    value_loop fuel arena m p name = Ret (find (named arena m name) l).
Proof.
  induction 1 as [|a lt l Ha Hl IH]; intros fuel Hfuel.
  - destruct fuel; reflexivity.
  - destruct fuel as [|fuel]; [simpl in Hfuel; lia|].
    cbn [value_loop find]. rewrite (deref_lookup _ _ _ Ha). cbn [bind].
    unfold named at 1. rewrite Ha.
    destruct (textEqualsIgnoreCase m (token lt) name); [reflexivity|].
    apply IH. simpl in Hfuel. lia.
Qed.

Lemma getValue_chain (arena : Arena) (m : Mem) (b : Block) (name : Z) (l : list nat)
    (fuel : nat) :
  chain arena pNext (pValues b) l -> (length l <= fuel)%nat ->
  getValue fuel arena m b name = Ret (find (named arena m name) l).
Proof. intros Hc Hf. now apply value_loop_chain. Qed.


(** C8, amended. For a block whose header chain is acyclic:
    [getHeaderTokenCount] returns the number of entries of the chain when
    that number is at most 2^31 - 1; [getHeaderTokenWithIndex i] returns
    the i-th entry of the chain when [i] is less than the number of
    entries, and null otherwise; neither raises an error. *)
Theorem header_count_and_lookup (arena : Arena) (b : Block) (l : list nat) (fuel : nat) :
  chain arena pNext (pHeader b) l ->
  (length l <= fuel)%nat ->
  (Z.of_nat (length l) <= INT32_MAX ->
     getHeaderTokenCount fuel arena b = Ret (Z.of_nat (length l))) /\
  (forall i : Z, 0 <= i < 4294967296 ->
     getHeaderTokenWithIndex fuel arena b i = Ret (l !! Z.to_nat i) /\
     (i < Z.of_nat (length l) -> exists a, l !! Z.to_nat i = Some a) /\
     (Z.of_nat (length l) <= i -> l !! Z.to_nat i = None)).
Proof.
  intros Hc Hf. split.
  - intros Hmax. rewrite (getHeaderTokenCount_chain _ _ _ _ Hc Hf).
    f_equal. apply wrap_i32_id. unfold INT32_MIN. lia.
  - intros i Hi. split; [now apply getHeaderTokenWithIndex_chain|]. split.
    + intros Hlt. apply lookup_lt_is_Some. lia.
    + intros Hge. apply lookup_ge_None. lia.
Qed.

Lemma header_count_and_lookup_witness :
  chain Sample.arena pNext (pHeader Sample.block) [1; 2; 3]%nat /\
  (length [1; 2; 3]%nat <= 3)%nat /\
  getHeaderTokenCount 3 Sample.arena Sample.block = Ret 3 /\
  getHeaderTokenWithIndex 3 Sample.arena Sample.block 1 = Ret (Some 2%nat) /\
  getHeaderTokenWithIndex 3 Sample.arena Sample.block 3 = Ret None.
Proof.
  assert (Hc : chain Sample.arena pNext (pHeader Sample.block) [1; 2; 3]%nat).
  { walk_chain. }
  assert (Hf : (length [1; 2; 3]%nat <= 3)%nat) by (simpl; lia).
  pose proof (header_count_and_lookup Sample.arena Sample.block _ 3 Hc Hf) as [H1 H2].
  split; [exact Hc|]. split; [exact Hf|]. split; [|split].
  - apply H1. vm_compute. discriminate.
  - apply (H2 1). lia.
  - apply (H2 3). lia.
Defined.

(** The long header chain. *)
Lemma LongHeader_lookup (n k : nat) :
  (k < n)%nat -> LongHeader.arena n !! k = Some (LongHeader.header n k).
Proof.
  intros Hk. unfold LongHeader.arena.
  rewrite lookup_app_l by (rewrite length_fmap, length_seq; exact Hk).
  rewrite list_lookup_fmap, lookup_seq_lt by exact Hk. reflexivity.
Qed.

Lemma LongHeader_chain (n : nat) :
  forall d k : nat, (n - k = d)%nat -> (k <= n)%nat ->
    chain (LongHeader.arena n) pNext (if Nat.ltb k n then Some k else None) (seq k d).
Proof.
  induction d as [|d IH]; intros k Hd Hk.
  - replace (Nat.ltb k n) with false by (symmetry; apply Nat.ltb_ge; lia).
    apply chain_end.
  - replace (Nat.ltb k n) with true by (symmetry; apply Nat.ltb_lt; lia).
    cbn [seq]. apply chain_step with (LongHeader.header n k).
    + apply LongHeader_lookup. lia.
    + apply (IH (S k)); lia.
Qed.

Lemma LongHeader_count (n : nat) :
  (0 < n)%nat ->
  chain (LongHeader.arena n) pNext (pHeader (LongHeader.block n)) (seq 0 n) /\
  getHeaderTokenCount n (LongHeader.arena n) (LongHeader.block n) = Ret (wrap_i32 (Z.of_nat n)).
Proof.
  intros Hn.
  assert (Hc : chain (LongHeader.arena n) pNext (pHeader (LongHeader.block n)) (seq 0 n)).
  { pose proof (LongHeader_chain n n 0%nat) as H.
    replace (Nat.ltb 0 n) with true in H by (symmetry; apply Nat.ltb_lt; lia).
    apply H; lia. }
  split; [exact Hc|].
  rewrite (getHeaderTokenCount_chain _ _ _ n Hc) by (rewrite length_seq; lia).
  now rewrite length_seq.
Qed.

(** C8 as stated fails on a header chain of 2^31 entries: the chain ends,
    and the [int32_t] count has wrapped around. *)
Lemma getHeaderTokenCount_wraps_around :
  chain (LongHeader.arena LongHeader.entries) pNext
        (pHeader (LongHeader.block LongHeader.entries)) (seq 0 LongHeader.entries) /\
  Z.of_nat (length (seq 0 LongHeader.entries)) = 2147483648 /\
  getHeaderTokenCount LongHeader.entries (LongHeader.arena LongHeader.entries)
                      (LongHeader.block LongHeader.entries) = Ret (-2147483648).
Proof.
  assert (Hpos : (0 < LongHeader.entries)%nat) by (unfold LongHeader.entries; lia).
  destruct (LongHeader_count LongHeader.entries Hpos) as [Hc Hn].
  assert (Hz : Z.of_nat LongHeader.entries = 2147483648).
  { unfold LongHeader.entries. apply Z2Nat.id. lia. }
  split; [exact Hc|]. split.
  - rewrite length_seq. exact Hz.
  - rewrite Hn, Hz. reflexivity.
Qed.

(** ** Required header tokens *)


(** C2, amended. For an index that is at least the number of header
    tokens, [getRequiredHeaderToken] does not return: it raises the fatal
    error, and the error cites the end of the block's type token. *)
Theorem getRequiredHeaderToken_out_of_range (arena : Arena) (b : Block) (l : list nat)
    (ty : LinkedToken) (fuel : nat) (index : Z) :
  chain arena pNext (pHeader b) l ->
  (length l <= fuel)%nat ->
  deref arena (pType b) = Ret ty ->
  Z.of_nat (length l) <= index <= INT32_MAX ->
  getRequiredHeaderToken fuel arena b index = error (end_ (token ty)) INVALID_HEADER /\
  is_fatal (getRequiredHeaderToken fuel arena b index) = true.
Proof.
  unfold INT32_MAX. intros Hc Hf Hty Hi.
  assert (E : getRequiredHeaderToken fuel arena b index = error (end_ (token ty)) INVALID_HEADER).
  { unfold getRequiredHeaderToken. rewrite wrap_u32_id by lia.
    rewrite (getHeaderTokenWithIndex_chain _ _ _ _ _ Hc Hf) by lia.
    rewrite lookup_ge_None_2 by lia. cbn [bind]. now rewrite Hty. }
  split; [exact E|]. rewrite E. reflexivity.
Qed.

Lemma getRequiredHeaderToken_out_of_range_witness :
  chain Sample.arena pNext (pHeader Sample.block) [1; 2; 3]%nat /\
  getRequiredHeaderToken 3 Sample.arena Sample.block 3 =
    error (Sample.loc 3) INVALID_HEADER /\
  is_fatal (getRequiredHeaderToken 3 Sample.arena Sample.block 3) = true.
Proof.
  assert (Hc : chain Sample.arena pNext (pHeader Sample.block) [1; 2; 3]%nat).
  { walk_chain. }
  split; [exact Hc|].
  refine (getRequiredHeaderToken_out_of_range Sample.arena Sample.block [1; 2; 3]%nat
            (Sample.link (Sample.tok 0 3 TT_Identifier f_zero) None None) 3 3 Hc _ _ _).
  - simpl. lia.
  - reflexivity.
  - vm_compute. split; discriminate.
Defined.

(** C2 as stated fails: in the sample block, whose type token [Map] spans
    columns 0 to 3, the error raised for index 3 cites line 1 column 4, the
    end of [Map], while an error at the start of the block cites line 1
    column 1. *)
Lemma getRequiredHeaderToken_does_not_cite_the_block_start :
  getHeaderTokenCount 3 Sample.arena Sample.block = Ret 3 /\
  getRequiredHeaderToken 3 Sample.arena Sample.block 3 =
    error (Sample.loc 3) INVALID_HEADER /\
  error_block Sample.arena Sample.block INVALID_HEADER =
    error (A := LinkedToken) (Sample.loc 0) INVALID_HEADER /\
  getRequiredHeaderToken 3 Sample.arena Sample.block 3 <>
    error_block Sample.arena Sample.block INVALID_HEADER.
Proof.
  repeat split; try reflexivity.
  vm_compute. intros H. discriminate H.
Qed.

(** The two lines of the message. *)
Example error_text_of_the_sample :
  getRequiredHeaderToken 3 Sample.arena Sample.block 3 =
    Fatal ("Error parsing MAPINFO at line 1 column 4!" ++ newline ++ INVALID_HEADER)%string.
Proof. reflexivity. Qed.



(** The header [1 "E1M1" true] of the specification. *)
Example required_header_of_the_sample :
  getRequiredHeaderInt 3 Sample.arena Sample.block 0 = Ret 1 /\
  getRequiredHeaderSmallString Sample.Str 3 Sample.arena Sample.mem Sample.block 1 =
    Ret (Sample.chars "E1M1") /\
  getRequiredHeaderNumber 3 Sample.arena Sample.block 2 = Ret f_one.
Proof. repeat split; reflexivity. Qed.

(* ===================================================================== *)
(** ** Integers through binary32 *)

Lemma digits2_pos_lower (p : positive) : 2 ^ (Zpos (digits2_pos p) - 1) <= Zpos p.
Proof.
  induction p as [p IH|p IH|]; simpl digits2_pos.
  - rewrite Pos2Z.inj_succ, (Pos2Z.inj_xI p).
    pose proof (Pos2Z.is_pos (digits2_pos p)) as Hd.
    remember (Zpos (digits2_pos p)) as d.
    replace (Z.succ d - 1) with (Z.succ (d - 1)) by lia.
    rewrite Z.pow_succ_r by lia.
    remember (2 ^ (d - 1)) as x. clear Heqx Heqd. lia.
  - rewrite Pos2Z.inj_succ, (Pos2Z.inj_xO p).
    pose proof (Pos2Z.is_pos (digits2_pos p)) as Hd.
    remember (Zpos (digits2_pos p)) as d.
    replace (Z.succ d - 1) with (Z.succ (d - 1)) by lia.
    rewrite Z.pow_succ_r by lia.
    remember (2 ^ (d - 1)) as x. clear Heqx Heqd. lia.
  - simpl. lia.
Qed.

Lemma digits2_pos_small (p : positive) : Zpos p < 2 ^ 24 -> Zpos (digits2_pos p) <= 24.
Proof.
  intros Hp. destruct (Z.le_gt_cases (Zpos (digits2_pos p)) 24) as [H|H]; [exact H|].
  exfalso. pose proof (digits2_pos_lower p) as Hl.
  assert (2 ^ 24 <= 2 ^ (Zpos (digits2_pos p) - 1)) by (apply Z.pow_le_mono_r; lia).
  lia.
Qed.

Lemma iter_xO_spec (k m : positive) :
  Zpos (Pos.iter xO m k) = Zpos m * 2 ^ Zpos k /\
  Zpos (digits2_pos (Pos.iter xO m k)) = Zpos (digits2_pos m) + Zpos k.
Proof.
  induction k as [|k [IH1 IH2]] using Pos.peano_ind.
  - simpl Pos.iter. simpl digits2_pos. rewrite Pos2Z.inj_succ, (Pos2Z.inj_xO m). lia.
  - rewrite Pos.iter_succ. simpl digits2_pos.
    rewrite (Pos2Z.inj_xO (Pos.iter xO m k)), !Pos2Z.inj_succ, IH1, IH2.
    rewrite Z.pow_succ_r by lia.
    remember (2 ^ Zpos k) as x. clear Heqx. lia.
Qed.

(** A mantissa of 24 bits is not rounded. *)
Lemma binary_round_aux_exact (s : bool) (mz : positive) (ez : Z) :
  Zpos (digits2_pos mz) = 24 -> -149 <= ez <= 104 ->
  binary_round_aux 24 128 s (Zpos mz) ez loc_Exact = S754_finite s mz ez.
Proof.
  intros Hd He. unfold binary_round_aux, shr_fexp. cbn [Zdigits2 shr_record_of_loc].
  assert (E : fexp 24 128 (Zpos (digits2_pos mz) + ez) - ez = 0).
  { unfold fexp, emin. rewrite Hd. lia. }
  rewrite E. cbn [shr loc_of_shr_record shr_m shr_r shr_s round_nearest_even].
  cbn [Zdigits2 shr_record_of_loc]. rewrite E. cbn [shr shr_m].
  replace (ez <=? 128 - 24) with true by (symmetry; apply Z.leb_le; lia).
  reflexivity.
Qed.

(** An integer below 2^24 in absolute value is a binary32 number. *)
Lemma binary_round_small (s : bool) (mx : positive) :
  Zpos mx < 2 ^ 24 ->
  exists (mz : positive) (ez : Z),
    binary_round 24 128 s mx 0 = S754_finite s mz ez /\ Z.shiftl (Zpos mz) ez = Zpos mx.
Proof.
  intros Hmx. pose proof (digits2_pos_small mx Hmx) as Hd.
  unfold binary_round, shl_align.
  assert (E : fexp 24 128 (Zpos (digits2_pos mx) + 0) - 0 = Zpos (digits2_pos mx) - 24).
  { unfold fexp, emin. lia. }
  rewrite E.
  destruct (Zpos (digits2_pos mx) - 24) as [|k|k] eqn:Ek; [| lia |].
  - exists mx, 0. split; [|reflexivity].
    apply binary_round_aux_exact; lia.
  - destruct (iter_xO_spec k mx) as [Hv Hdig].
    assert (Ef : fexp 24 128 (Zpos (digits2_pos mx) + 0) = Zneg k).
    { unfold fexp, emin. lia. }
    rewrite Ef.
    exists (Pos.iter xO mx k), (Zneg k). split.
    + apply binary_round_aux_exact; lia.
    + rewrite Hv. change (Zneg k) with (- Zpos k).
      rewrite Z.shiftl_opp_r, Z.shiftr_div_pow2 by lia.
      apply Z.div_mul. apply Z.pow_nonzero; lia.
Qed.

(** Converting an integer of at most 24 bits to [float] and back gives the
    integer. *)
Lemma int32_of_float_of_int (z : Z) :
  -16777216 <= z <= 16777216 -> int32_of_float (float_of_int z) = Ret z.
Proof.
  intros Hz.
  destruct (Z.eq_dec z 16777216) as [->|Hhi]; [reflexivity|].
  destruct (Z.eq_dec z (-16777216)) as [->|Hlo]; [reflexivity|].
  unfold float_of_int, binary_normalize. destruct z as [|p|p].
  - reflexivity.
  - destruct (binary_round_small false p) as (mz & ez & -> & Hv);
      [change (2 ^ 24) with 16777216; lia|].
    unfold int32_of_float. rewrite Hv.
    replace (in_int32 (Zpos p)) with true; [reflexivity|].
    symmetry. unfold in_int32, INT32_MIN, INT32_MAX. apply andb_true_iff. lia.
  - destruct (binary_round_small true p) as (mz & ez & -> & Hv);
      [change (2 ^ 24) with 16777216; lia|].
    unfold int32_of_float. rewrite Hv.
    replace (in_int32 (- Zpos p)) with true; [reflexivity|].
    symmetry. unfold in_int32, INT32_MIN, INT32_MAX. apply andb_true_iff. lia.
Qed.

(** 16777217 is the first integer that binary32 cannot hold. *)
Example float_of_int_rounds :
  int32_of_float (float_of_int 16777217) = Ret 16777216.
Proof. reflexivity. Qed.

(* ===================================================================== *)
(** ** Single values *)

Lemma find_named (arena : Arena) (m : Mem) (name : Z) (l : list nat) (v : nat) :
  find (named arena m name) l = Some v ->
  exists lt, arena !! v = Some lt /\ textEqualsIgnoreCase m (token lt) name = true.
Proof.
  intros H. apply find_some in H as [_ H]. unfold named in H.
  destruct (arena !! v) as [lt|]; [now exists lt | discriminate].
Qed.

Lemma getSingleNumberValue_absent (arena : Arena) (m : Mem) (b : Block) (name : Z)
    (l : list nat) (fuel : nat) (dflt : float) :
  chain arena pNext (pValues b) l -> (length l <= fuel)%nat ->
  find (named arena m name) l = None ->
  getSingleNumberValue fuel arena m b name dflt = Ret dflt.
Proof.
  intros Hc Hf Hn. unfold getSingleNumberValue.
  rewrite (getValue_chain _ _ _ _ _ _ Hc Hf), Hn. reflexivity.
Qed.

Lemma getSingleNumberValue_flag (arena : Arena) (m : Mem) (b : Block) (name : Z)
    (l : list nat) (fuel : nat) (v : nat) (lt : LinkedToken) (dflt : float) :
  chain arena pNext (pValues b) l -> (length l <= fuel)%nat ->
  find (named arena m name) l = Some v -> arena !! v = Some lt -> pNextData lt = None ->
  getSingleNumberValue fuel arena m b name dflt = Ret f_one.
Proof.
  intros Hc Hf Hv Hlt Hd. unfold getSingleNumberValue.
  rewrite (getValue_chain _ _ _ _ _ _ Hc Hf), Hv. cbn [bind data_of].
  rewrite (deref_lookup _ _ _ Hlt). cbn [bind]. rewrite Hd. reflexivity.
Qed.

Lemma getSingleNumberValue_data (arena : Arena) (m : Mem) (b : Block) (name : Z)
    (l : list nat) (fuel : nat) (v d : nat) (lt dt : LinkedToken) (dflt : float) :
  chain arena pNext (pValues b) l -> (length l <= fuel)%nat ->
  find (named arena m name) l = Some v -> arena !! v = Some lt ->
  pNextData lt = Some d -> arena !! d = Some dt ->
  getSingleNumberValue fuel arena m b name dflt = Ret (number_of dt dflt).
Proof.
  intros Hc Hf Hv Hlt Hd Hdt. unfold getSingleNumberValue.
  rewrite (getValue_chain _ _ _ _ _ _ Hc Hf), Hv. cbn [bind data_of].
  rewrite (deref_lookup _ _ _ Hlt). cbn [bind]. rewrite Hd.
  rewrite (deref_lookup _ _ _ Hdt). cbn [bind].
  unfold number_of. destruct (type (token dt)); reflexivity.
Qed.

Lemma getSingleSmallStringValue_absent {SmallStrT : Type} (SmallStr : Mem -> Z -> Z -> SmallStrT)
    (arena : Arena) (m : Mem) (b : Block) (name : Z) (l : list nat) (fuel : nat)
    (dflt : SmallStrT) :
  chain arena pNext (pValues b) l -> (length l <= fuel)%nat ->
  find (named arena m name) l = None ->
  getSingleSmallStringValue SmallStr fuel arena m b name dflt = Ret dflt.
Proof.
  intros Hc Hf Hn. unfold getSingleSmallStringValue.
  rewrite (getValue_chain _ _ _ _ _ _ Hc Hf), Hn. reflexivity.
Qed.

Lemma getSingleSmallStringValue_flag {SmallStrT : Type} (SmallStr : Mem -> Z -> Z -> SmallStrT)
    (arena : Arena) (m : Mem) (b : Block) (name : Z) (l : list nat) (fuel : nat)
    (v : nat) (lt : LinkedToken) (dflt : SmallStrT) :
  chain arena pNext (pValues b) l -> (length l <= fuel)%nat ->
  find (named arena m name) l = Some v -> arena !! v = Some lt -> pNextData lt = None ->
  getSingleSmallStringValue SmallStr fuel arena m b name dflt = Ret dflt.
Proof.
  intros Hc Hf Hv Hlt Hd. unfold getSingleSmallStringValue.
  rewrite (getValue_chain _ _ _ _ _ _ Hc Hf), Hv. cbn [bind data_of].
  rewrite (deref_lookup _ _ _ Hlt). cbn [bind]. rewrite Hd. reflexivity.
Qed.

Lemma getSingleSmallStringValue_data {SmallStrT : Type} (SmallStr : Mem -> Z -> Z -> SmallStrT)
    (arena : Arena) (m : Mem) (b : Block) (name : Z) (l : list nat) (fuel : nat)
    (v d : nat) (lt dt : LinkedToken) (dflt : SmallStrT) :
  chain arena pNext (pValues b) l -> (length l <= fuel)%nat ->
  find (named arena m name) l = Some v -> arena !! v = Some lt ->
  pNextData lt = Some d -> arena !! d = Some dt ->
  getSingleSmallStringValue SmallStr fuel arena m b name dflt =
    Ret (small_of_view SmallStr m (text (token dt))).
Proof.
  intros Hc Hf Hv Hlt Hd Hdt. unfold getSingleSmallStringValue.
  rewrite (getValue_chain _ _ _ _ _ _ Hc Hf), Hv. cbn [bind data_of].
  rewrite (deref_lookup _ _ _ Hlt). cbn [bind]. rewrite Hd.
  rewrite (deref_lookup _ _ _ Hdt). reflexivity.
Qed.

(** The value chain of the sample block. *)
Lemma Sample_values : chain Sample.arena pNext (pValues Sample.block) [4; 6; 7; 11]%nat.
Proof. walk_chain. Qed.

(** C3, amended. When the first value of the given name has no data (a
    flag), [getSingleNumberValue] returns 1 and [getSingleSmallStringValue]
    the default. When no value has the name, [getSingleNumberValue] and
    [getSingleSmallStringValue] return the default itself, and
    [getSingleIntValue] returns the default converted to [float] and back:
    the default itself when it lies between -2^24 and 2^24. *)
Theorem single_value_of_a_flag_and_of_an_absent_name
    {SmallStrT : Type} (SmallStr : Mem -> Z -> Z -> SmallStrT)
    (arena : Arena) (m : Mem) (b : Block) (name : Z) (l : list nat) (fuel : nat) :
  chain arena pNext (pValues b) l ->
  (length l <= fuel)%nat ->
  (forall (v : nat) (lt : LinkedToken),
     find (named arena m name) l = Some v -> arena !! v = Some lt -> pNextData lt = None ->
     (forall dflt, getSingleNumberValue fuel arena m b name dflt = Ret f_one) /\
     (forall dflt, getSingleSmallStringValue SmallStr fuel arena m b name dflt = Ret dflt)) /\
  (find (named arena m name) l = None ->
     (forall dflt, getSingleNumberValue fuel arena m b name dflt = Ret dflt) /\
     (forall dflt, getSingleSmallStringValue SmallStr fuel arena m b name dflt = Ret dflt) /\
     (forall dflt, getSingleIntValue fuel arena m b name dflt =
                   int32_of_float (float_of_int dflt)) /\
     (forall dflt, -16777216 <= dflt <= 16777216 ->
                   getSingleIntValue fuel arena m b name dflt = Ret dflt)).
Proof.
  intros Hc Hf. split.
  - intros v lt Hv Hlt Hd. split; intros dflt.
    + now apply getSingleNumberValue_flag with l v lt.
    + now apply getSingleSmallStringValue_flag with l v lt.
  - intros Hn.
    assert (Hint : forall dflt, getSingleIntValue fuel arena m b name dflt =
                                int32_of_float (float_of_int dflt)).
    { intros dflt. unfold getSingleIntValue.
      now rewrite (getSingleNumberValue_absent _ _ _ _ _ _ _ Hc Hf Hn). }
    repeat split.
    + intros dflt. now apply getSingleNumberValue_absent with l.
    + intros dflt. now apply getSingleSmallStringValue_absent with l.
    + exact Hint.
    + intros dflt Hd. rewrite Hint. now apply int32_of_float_of_int.
Qed.

Lemma single_value_of_a_flag_and_of_an_absent_name_witness :
  chain Sample.arena pNext (pValues Sample.block) [4; 6; 7; 11]%nat /\
  find (named Sample.arena Sample.mem Sample.n_nointermission) [4; 6; 7; 11]%nat = Some 6%nat /\
  find (named Sample.arena Sample.mem Sample.n_secret) [4; 6; 7; 11]%nat = None /\
  getSingleNumberValue 4 Sample.arena Sample.mem Sample.block Sample.n_nointermission f_zero =
    Ret f_one /\
  getSingleIntValue 4 Sample.arena Sample.mem Sample.block Sample.n_secret (-1) = Ret (-1).
Proof.
  assert (Hc : chain Sample.arena pNext (pValues Sample.block) [4; 6; 7; 11]%nat).
  { walk_chain. }
  assert (Hf : (length [4; 6; 7; 11]%nat <= 4)%nat) by (simpl; lia).
  split; [exact Hc|]. split; [reflexivity|]. split; [reflexivity|]. split.
  - destruct (single_value_of_a_flag_and_of_an_absent_name Sample.Str Sample.arena Sample.mem
                Sample.block Sample.n_nointermission _ 4 Hc Hf) as [Hflag _].
    apply (Hflag 6%nat (Sample.link (Sample.tok 30 44 TT_Identifier f_zero) (Some 7%nat) None));
      reflexivity.
  - destruct (single_value_of_a_flag_and_of_an_absent_name Sample.Str Sample.arena Sample.mem
                Sample.block Sample.n_secret _ 4 Hc Hf) as [_ Habsent].
    apply Habsent; [reflexivity | lia].
Defined.

(** C3 as stated fails for [getSingleIntValue]: no value of the sample
    block is named [Secret], and the default 16777217 comes back as
    16777216. *)
Lemma getSingleIntValue_rounds_the_default :
  chain Sample.arena pNext (pValues Sample.block) [4; 6; 7; 11]%nat /\
  find (named Sample.arena Sample.mem Sample.n_secret) [4; 6; 7; 11]%nat = None /\
  getSingleIntValue 4 Sample.arena Sample.mem Sample.block Sample.n_secret 16777217 =
    Ret 16777216.
Proof.
  split; [exact Sample_values|]. split; reflexivity.
Qed.

(** The values [Music = 5] and [NoIntermission] of the specification. *)
Example single_values_of_the_sample :
  getSingleIntValue 4 Sample.arena Sample.mem Sample.block Sample.n_music (-1) = Ret 5 /\
  getSingleIntValue 4 Sample.arena Sample.mem Sample.block Sample.n_secret (-1) = Ret (-1) /\
  getSingleNumberValue 4 Sample.arena Sample.mem Sample.block Sample.n_nointermission f_zero =
    Ret f_one /\
  getSingleNumberValue 4 Sample.arena Sample.mem Sample.block Sample.n_specialaction f_zero =
    Ret (float_of_int 3).
Proof. repeat split; reflexivity. Qed.

(** ** No fatal error on the way to a single value *)

Lemma is_fatal_bind {A B : Type} (x : outcome A) (k : A -> outcome B) :
  is_fatal x = false -> (forall a, is_fatal (k a) = false) -> is_fatal (bind x k) = false.
Proof. intros Hx Hk. destruct x; simpl in *; auto. Qed.

Lemma is_fatal_deref (arena : Arena) (p : ptr) : is_fatal (deref arena p) = false.
Proof. unfold deref. destruct p as [a|]; [destruct (arena !! a)|]; reflexivity. Qed.

Lemma is_fatal_value_loop (arena : Arena) (m : Mem) (name : Z) (fuel : nat) :
  forall p, is_fatal (value_loop fuel arena m p name) = false.
Proof.
  induction fuel as [|fuel IH]; intros [a|]; try reflexivity.
  cbn [value_loop]. apply is_fatal_bind; [apply is_fatal_deref|].
  intros lt. destruct (textEqualsIgnoreCase m (token lt) name); [reflexivity | apply IH].
Qed.

Lemma is_fatal_data_of (arena : Arena) (p : ptr) : is_fatal (data_of arena p) = false.
Proof.
  destruct p as [a|]; [|reflexivity]. cbn [data_of].
  apply is_fatal_bind; [apply is_fatal_deref | reflexivity].
Qed.

Lemma is_fatal_int32_of_float (x : float) : is_fatal (int32_of_float x) = false.
Proof.
  destruct x as [s|s| |s mx ex]; try reflexivity.
  cbn [int32_of_float]. destruct (in_int32 _); reflexivity.
Qed.

Lemma getSingleNumberValue_not_fatal (fuel : nat) (arena : Arena) (m : Mem) (b : Block)
    (name : Z) (dflt : float) :
  is_fatal (getSingleNumberValue fuel arena m b name dflt) = false.
Proof.
  unfold getSingleNumberValue, getValue.
  apply is_fatal_bind; [apply is_fatal_value_loop|]. intros pToken.
  apply is_fatal_bind; [apply is_fatal_data_of|]. intros [d|]; [|reflexivity].
  apply is_fatal_bind; [apply is_fatal_deref|]. intros dt.
  destruct (type (token dt)); reflexivity.
Qed.

(** C1, amended. The three single-value accessors never raise a fatal
    error, whatever the block, the name and the default. When the first
    value of the given name has a first data token that is neither a Number
    nor a boolean literal, [getSingleNumberValue] returns the default, and
    [getSingleIntValue] returns the default converted to [float] and back:
    the default itself when it lies between -2^24 and 2^24. *)
Theorem single_value_accessors_never_fatal
    {SmallStrT : Type} (SmallStr : Mem -> Z -> Z -> SmallStrT)
    (fuel : nat) (arena : Arena) (m : Mem) (b : Block) (name : Z) :
  (forall dflt, is_fatal (getSingleNumberValue fuel arena m b name dflt) = false) /\
  (forall dflt, is_fatal (getSingleIntValue fuel arena m b name dflt) = false) /\
  (forall dflt, is_fatal (getSingleSmallStringValue SmallStr fuel arena m b name dflt) = false) /\
  (forall (l : list nat) (v d : nat) (lt dt : LinkedToken),
     chain arena pNext (pValues b) l -> (length l <= fuel)%nat ->
     find (named arena m name) l = Some v -> arena !! v = Some lt ->
     pNextData lt = Some d -> arena !! d = Some dt ->
     number_kind (type (token dt)) = false ->
     (forall dflt, getSingleNumberValue fuel arena m b name dflt = Ret dflt) /\
     (forall dflt, getSingleIntValue fuel arena m b name dflt =
                   int32_of_float (float_of_int dflt)) /\
     (forall dflt, -16777216 <= dflt <= 16777216 ->
                   getSingleIntValue fuel arena m b name dflt = Ret dflt)).
Proof.
  split; [intros dflt; apply getSingleNumberValue_not_fatal|]. split; [|split].
  - intros dflt. unfold getSingleIntValue.
    apply is_fatal_bind; [apply getSingleNumberValue_not_fatal|].
    intros x. apply is_fatal_int32_of_float.
  - intros dflt. unfold getSingleSmallStringValue, getValue.
    apply is_fatal_bind; [apply is_fatal_value_loop|]. intros pToken.
    apply is_fatal_bind; [apply is_fatal_data_of|]. intros [d|]; [|reflexivity].
    apply is_fatal_bind; [apply is_fatal_deref | reflexivity].
  - intros l v d lt dt Hc Hf Hv Hlt Hd Hdt Hk.
    assert (Hnum : forall dflt, getSingleNumberValue fuel arena m b name dflt = Ret dflt).
    { intros dflt. rewrite (getSingleNumberValue_data _ _ _ _ _ _ _ _ _ _ dflt Hc Hf Hv Hlt Hd Hdt).
      unfold number_of. destruct (type (token dt)); try discriminate Hk; reflexivity. }
    assert (Hint : forall dflt, getSingleIntValue fuel arena m b name dflt =
                                int32_of_float (float_of_int dflt)).
    { intros dflt. unfold getSingleIntValue. now rewrite Hnum. }
    repeat split; [exact Hnum | exact Hint |].
    intros dflt Hr. rewrite Hint. now apply int32_of_float_of_int.
Qed.

Lemma single_value_accessors_never_fatal_witness :
  chain Sample.arena pNext (pValues Sample.block) [4; 6; 7; 11]%nat /\
  find (named Sample.arena Sample.mem Sample.n_sky) [4; 6; 7; 11]%nat = Some 11%nat /\
  getSingleNumberValue 4 Sample.arena Sample.mem Sample.block Sample.n_sky (float_of_int 7) =
    Ret (float_of_int 7) /\
  getSingleIntValue 4 Sample.arena Sample.mem Sample.block Sample.n_sky 7 = Ret 7.
Proof.
  assert (Hc : chain Sample.arena pNext (pValues Sample.block) [4; 6; 7; 11]%nat).
  { walk_chain. }
  split; [exact Hc|]. split; [reflexivity|].
  destruct (single_value_accessors_never_fatal Sample.Str 4 Sample.arena Sample.mem
              Sample.block Sample.n_sky) as (_ & _ & _ & H).
  destruct (H [4; 6; 7; 11]%nat 11%nat 12%nat
              (Sample.link (Sample.tok 77 80 TT_Identifier f_zero) None (Some 12%nat))
              (Sample.link (Sample.tok 83 90 TT_String f_zero) None None)
              Hc) as (Hnum & _ & Hint); try reflexivity.
  split; [apply Hnum | apply Hint; lia].
Defined.

(** C1 as stated fails twice in the sample block. [Sky = "SKY01"] has a
    String as data, which is no number, and [getSingleIntValue] returns
    16777216 for the default 16777217. [Music = 5] has a Number as data,
    and [getSingleSmallStringValue] returns its text [5], not the
    default. *)
Lemma single_value_accessors_do_not_return_the_default :
  find (named Sample.arena Sample.mem Sample.n_sky) [4; 6; 7; 11]%nat = Some 11%nat /\
  (pNextData <$> Sample.arena !! 11%nat) = Some (Some 12%nat) /\
  (type <$> (token <$> Sample.arena !! 12%nat)) = Some TT_String /\
  getSingleIntValue 4 Sample.arena Sample.mem Sample.block Sample.n_sky 16777217 =
    Ret 16777216 /\
  find (named Sample.arena Sample.mem Sample.n_music) [4; 6; 7; 11]%nat = Some 4%nat /\
  (pNextData <$> Sample.arena !! 4%nat) = Some (Some 5%nat) /\
  (type <$> (token <$> Sample.arena !! 5%nat)) = Some TT_Number /\
  getSingleSmallStringValue Sample.Str 4 Sample.arena Sample.mem Sample.block Sample.n_music
    (Sample.chars "D_DEFAULT") = Ret (Sample.chars "5").
Proof. repeat split; reflexivity. Qed.

(** ** Cutting a data chain after its first token *)

Lemma truncate_data_other (arena : Arena) (d a : nat) :
  a <> d -> truncate_data arena d !! a = arena !! a.
Proof.
  intros Hne. unfold truncate_data. destruct (arena !! d) as [dt|]; [|reflexivity].
  apply list_lookup_insert_ne. congruence.
Qed.

Lemma truncate_data_first (arena : Arena) (d : nat) (dt : LinkedToken) :
  arena !! d = Some dt ->
  truncate_data arena d !! d =
    Some {| token := token dt; pNext := pNext dt; pNextData := None |}.
Proof.
  intros Hd. unfold truncate_data. rewrite Hd.
  apply list_lookup_insert_eq. now apply lookup_lt_Some with dt.
Qed.

(** Tokens and [pNext] links are those of the original arena. *)
Lemma truncate_data_entry (arena : Arena) (d a : nat) :
  match arena !! a, truncate_data arena d !! a with
  | Some x, Some y => token y = token x /\ pNext y = pNext x
  | None, None => True
  | _, _ => False
  end.
Proof.
  destruct (decide (a = d)) as [->|Hne].
  - destruct (arena !! d) as [dt|] eqn:Hd.
    + now rewrite (truncate_data_first _ _ _ Hd).
    + unfold truncate_data. now rewrite Hd, Hd.
  - rewrite (truncate_data_other _ _ _ Hne). destruct (arena !! a); auto.
Qed.

Lemma value_loop_truncate (arena : Arena) (m : Mem) (name : Z) (d : nat) (fuel : nat) :
  forall p, value_loop fuel (truncate_data arena d) m p name = value_loop fuel arena m p name.
Proof.
  induction fuel as [|fuel IH]; intros [a|]; try reflexivity.
  cbn [value_loop deref]. pose proof (truncate_data_entry arena d a) as H.
  destruct (arena !! a) as [x|], (truncate_data arena d !! a) as [y|];
    try contradiction; [|reflexivity].
  destruct H as [Ht Hn]. cbn [bind]. rewrite Ht, Hn, IH. reflexivity.
Qed.

Lemma chain_truncate_values (arena : Arena) (d : nat) (p : ptr) (l : list nat) :
  chain arena pNext p l -> chain (truncate_data arena d) pNext p l.
Proof.
  induction 1 as [|a lt l Ha Hl IH]; [apply chain_end|].
  pose proof (truncate_data_entry arena d a) as H. rewrite Ha in H.
  destruct (truncate_data arena d !! a) as [y|] eqn:Hy; [|contradiction].
  destruct H as [_ Hn]. apply chain_step with y; [exact Hy | now rewrite Hn].
Qed.

(** C7. When the value of the given name has a data chain, the three
    single-value accessors consult its first data token only: each returns
    what that token alone determines (its number, 1, 0 or the default for
    the number accessors, its text for the small string), and returns the
    same in the arena where the data chain holds its first entry only. *)
Theorem single_value_reads_the_first_data_token_only
    {SmallStrT : Type} (SmallStr : Mem -> Z -> Z -> SmallStrT)
    (arena : Arena) (m : Mem) (b : Block) (name : Z) (l : list nat) (fuel : nat)
    (v d : nat) (lt : LinkedToken) (rest : list nat) :
  chain arena pNext (pValues b) l ->
  (length l <= fuel)%nat ->
  find (named arena m name) l = Some v ->
  arena !! v = Some lt ->
  pNextData lt = Some d ->
  chain arena pNextData (Some d) (d :: rest) ->
  let arena1 := truncate_data arena d in
  exists dt : LinkedToken,
    arena !! d = Some dt /\
    chain arena1 pNext (pValues b) l /\
    chain arena1 pNextData (Some d) [d] /\
    (forall dflt,
       getSingleNumberValue fuel arena m b name dflt = Ret (number_of dt dflt) /\
       getSingleNumberValue fuel arena1 m b name dflt = Ret (number_of dt dflt)) /\
    (forall dflt,
       getSingleIntValue fuel arena m b name dflt =
         int32_of_float (number_of dt (float_of_int dflt)) /\
       getSingleIntValue fuel arena1 m b name dflt =
         int32_of_float (number_of dt (float_of_int dflt))) /\
    (forall dflt,
       getSingleSmallStringValue SmallStr fuel arena m b name dflt =
         Ret (small_of_view SmallStr m (text (token dt))) /\
       getSingleSmallStringValue SmallStr fuel arena1 m b name dflt =
         Ret (small_of_view SmallStr m (text (token dt)))).
Proof.
  intros Hc Hf Hv Hlt Hd Hdata arena1.
  inversion Hdata as [|d' dt rest' Hdt Hrest]; subst.
  assert (Hne : v <> d).
  { intros ->. assert (dt = lt) by congruence. subst dt.
    now apply (chain_head_fresh _ _ _ _ _ Hdata Hlt). }
  assert (Hc1 : chain arena1 pNext (pValues b) l) by now apply chain_truncate_values.
  assert (Hlt1 : arena1 !! v = Some lt).
  { unfold arena1. now rewrite truncate_data_other. }
  assert (Hdt1 : arena1 !! d = Some {| token := token dt; pNext := pNext dt; pNextData := None |}).
  { now apply truncate_data_first. }
  assert (Hv1 : find (named arena1 m name) l = Some v).
  { pose proof (getValue_chain _ m _ name _ _ Hc Hf) as E.
    pose proof (getValue_chain _ m _ name _ _ Hc1 Hf) as E1.
    unfold getValue in E, E1. unfold arena1 in E1 at 1.
    rewrite value_loop_truncate, E in E1. injection E1 as <-. exact Hv. }
  assert (Hnum : forall dflt,
            getSingleNumberValue fuel arena m b name dflt = Ret (number_of dt dflt) /\
            getSingleNumberValue fuel arena1 m b name dflt = Ret (number_of dt dflt)).
  { intros dflt. split.
    - now apply getSingleNumberValue_data with l v d lt.
    - now rewrite (getSingleNumberValue_data _ _ _ _ _ _ _ _ _ _ dflt Hc1 Hf Hv1 Hlt1 Hd Hdt1). }
  exists dt. split; [exact Hdt|]. split; [exact Hc1|]. split; [|split; [exact Hnum|split]].
  - apply chain_step with {| token := token dt; pNext := pNext dt; pNextData := None |};
      [exact Hdt1 | apply chain_end].
  - intros dflt. unfold getSingleIntValue.
    destruct (Hnum (float_of_int dflt)) as [-> ->]. split; reflexivity.
  - intros dflt. split.
    + now apply getSingleSmallStringValue_data with l v d lt.
    + now rewrite (getSingleSmallStringValue_data _ _ _ _ _ _ _ _ _ _ _ dflt
                     Hc1 Hf Hv1 Hlt1 Hd Hdt1).
Qed.

Lemma single_value_reads_the_first_data_token_only_witness :
  chain Sample.arena pNext (pValues Sample.block) [4; 6; 7; 11]%nat /\
  find (named Sample.arena Sample.mem Sample.n_specialaction) [4; 6; 7; 11]%nat = Some 7%nat /\
  chain Sample.arena pNextData (Some 8%nat) [8; 9; 10]%nat /\
  chain (truncate_data Sample.arena 8) pNextData (Some 8%nat) [8%nat] /\
  getSingleNumberValue 4 Sample.arena Sample.mem Sample.block Sample.n_specialaction f_zero =
    Ret (float_of_int 3) /\
  getSingleNumberValue 4 (truncate_data Sample.arena 8) Sample.mem Sample.block
    Sample.n_specialaction f_zero = Ret (float_of_int 3) /\
  getSingleIntValue 4 Sample.arena Sample.mem Sample.block Sample.n_specialaction 0 = Ret 3.
Proof.
  assert (Hc : chain Sample.arena pNext (pValues Sample.block) [4; 6; 7; 11]%nat).
  { walk_chain. }
  assert (Hd : chain Sample.arena pNextData (Some 8%nat) [8; 9; 10]%nat).
  { walk_chain. }
  assert (Hf : (length [4; 6; 7; 11]%nat <= 4)%nat) by (simpl; lia).
  split; [exact Hc|]. split; [reflexivity|]. split; [exact Hd|].
  destruct (single_value_reads_the_first_data_token_only Sample.Str Sample.arena Sample.mem
              Sample.block Sample.n_specialaction [4; 6; 7; 11]%nat 4 7 8
              (Sample.link (Sample.tok 45 58 TT_Identifier f_zero) (Some 11%nat) (Some 8%nat))
              [9; 10]%nat Hc Hf eq_refl eq_refl eq_refl Hd)
    as (dt & Hdt & _ & H1 & Hnum & Hint & _).
  injection Hdt as <-.
  split; [exact H1|]. split; [exact (proj1 (Hnum f_zero))|].
  split; [exact (proj2 (Hnum f_zero)) | exact (proj1 (Hint 0))].
Defined.

(** The value [SpecialAction = 3, "Open", true] of the specification. *)
Example special_action_of_the_sample :
  getSingleNumberValue 4 Sample.arena Sample.mem Sample.block Sample.n_specialaction f_zero =
    Ret (float_of_int 3) /\
  numDataTokensAhead 3 Sample.arena
    (Sample.link (Sample.tok 45 58 TT_Identifier f_zero) (Some 11%nat) (Some 8%nat)) = Ret 3.
Proof. split; reflexivity. Qed.

(* ===================================================================== *)
(** ** Termination of the chain walks *)

Lemma count_ahead_visits_erase (next : LinkedToken -> ptr) (arena : Arena) (fuel : nat) :
  forall (p : ptr) (c : Z) (seen : list nat),
    Visits.result (Visits.count_ahead next fuel arena p c seen) =
    count_ahead next fuel arena p c.
Proof.
  induction fuel as [|fuel IH]; intros [a|] c seen; try reflexivity.
  cbn [Visits.count_ahead count_ahead deref]. destruct (arena !! a) as [lt|]; [|reflexivity].
  cbn [bind]. apply IH.
Qed.

Lemma header_loop_visits_erase (arena : Arena) (index : Z) (fuel : nat) :
  forall (p : ptr) (i : Z) (seen : list nat),
    Visits.result (Visits.header_loop fuel arena p i index seen) =
    header_loop fuel arena p i index.
Proof.
  induction fuel as [|fuel IH]; intros [a|] i seen; try reflexivity.
  cbn [Visits.header_loop header_loop deref]. destruct (i =? index); [reflexivity|].
  destruct (arena !! a) as [lt|]; [|reflexivity].
  cbn [bind]. apply IH.
Qed.

Lemma value_loop_visits_erase (arena : Arena) (m : Mem) (name : Z) (fuel : nat) :
  forall (p : ptr) (seen : list nat),
    Visits.result (Visits.value_loop fuel arena m p name seen) =
    value_loop fuel arena m p name.
Proof.
  induction fuel as [|fuel IH]; intros [a|] seen; try reflexivity.
  cbn [Visits.value_loop value_loop deref]. destruct (arena !! a) as [lt|]; [|reflexivity].
  cbn [bind]. destruct (textEqualsIgnoreCase m (token lt) name); [reflexivity | apply IH].
Qed.

(** The counting loop visits the whole chain, in order. *)
Lemma count_ahead_visits (next : LinkedToken -> ptr) (arena : Arena) (p : ptr) (l : list nat) :
  chain arena next p l ->
  forall (fuel : nat) (c : Z) (seen : list nat), (length l <= fuel)%nat ->
    exists r, Visits.count_ahead next fuel arena p c seen = Ret (r, seen ++ l).
Proof.
  induction 1 as [|a lt l Ha Hl IH]; intros fuel c seen Hfuel.
  - exists c. rewrite app_nil_r. destruct fuel; reflexivity.
  - destruct fuel as [|fuel]; [simpl in Hfuel; lia|].
    cbn [Visits.count_ahead]. rewrite (deref_lookup _ _ _ Ha). cbn [bind].
    destruct (IH fuel (wrap_i32 (c + 1)) (seen ++ [a])) as [r Hr]; [simpl in Hfuel; lia|].
    exists r. rewrite Hr, <- app_assoc. reflexivity.
Qed.

(** The two searching loops visit a prefix of the chain, in order. *)
Lemma header_loop_visits (arena : Arena) (index : Z) (p : ptr) (l : list nat) :
  chain arena pNext p l ->
  forall (fuel : nat) (i : Z) (seen : list nat), (length l <= fuel)%nat ->
    exists r seen',
      Visits.header_loop fuel arena p i index seen = Ret (r, seen ++ seen') /\
      seen' `prefix_of` l.
Proof.
  induction 1 as [|a lt l Ha Hl IH]; intros fuel i seen Hfuel.
  - exists None, []. rewrite app_nil_r. split; [destruct fuel; reflexivity | reflexivity].
  - destruct fuel as [|fuel]; [simpl in Hfuel; lia|].
    cbn [Visits.header_loop]. destruct (i =? index).
    + exists (Some a), [a]. split; [reflexivity|]. apply prefix_cons, prefix_nil.
    + rewrite (deref_lookup _ _ _ Ha). cbn [bind].
      destruct (IH fuel (wrap_u32 (i + 1)) (seen ++ [a])) as (r & seen' & Hr & Hp);
        [simpl in Hfuel; lia|].
      exists r, (a :: seen'). rewrite Hr, <- app_assoc.
      split; [reflexivity | now apply prefix_cons].
Qed.

Lemma value_loop_visits (arena : Arena) (m : Mem) (name : Z) (p : ptr) (l : list nat) :
  chain arena pNext p l ->
  forall (fuel : nat) (seen : list nat), (length l <= fuel)%nat ->
    exists r seen',
      Visits.value_loop fuel arena m p name seen = Ret (r, seen ++ seen') /\
      seen' `prefix_of` l.
Proof.
  induction 1 as [|a lt l Ha Hl IH]; intros fuel seen Hfuel.
  - exists None, []. rewrite app_nil_r. split; [destruct fuel; reflexivity | reflexivity].
  - destruct fuel as [|fuel]; [simpl in Hfuel; lia|].
    cbn [Visits.value_loop]. rewrite (deref_lookup _ _ _ Ha). cbn [bind].
    destruct (textEqualsIgnoreCase m (token lt) name).
    + exists (Some a), [a]. split; [reflexivity|]. apply prefix_cons, prefix_nil.
    + destruct (IH fuel (seen ++ [a])) as (r & seen' & Hr & Hp); [simpl in Hfuel; lia|].
      exists r, (a :: seen'). rewrite Hr, <- app_assoc.
      split; [reflexivity | now apply prefix_cons].
Qed.

Lemma prefix_NoDup (seen l : list nat) : seen `prefix_of` l -> NoDup l -> NoDup seen.
Proof. intros [k ->] H. now apply NoDup_app in H as [H _]. Qed.

Lemma result_Ret {A : Type} (x : outcome (A * list nat)) (r : A) (seen : list nat) :
  x = Ret (r, seen) -> Visits.result x = Ret r.
Proof. intros ->. reflexivity. Qed.

(** C9. On a chain that ends in an absent link, each of the four walks
    returns as soon as its fuel is the length of the chain; the entries it
    visits are the chain ([numTokensAhead], [numDataTokensAhead]) or a
    prefix of it ([getHeaderTokenWithIndex], [getValue]), and no entry is
    visited twice. *)
Theorem chain_walks_terminate (arena : Arena) (m : Mem) (l : list nat) (fuel : nat) :
  (length l <= fuel)%nat ->
  (forall this : LinkedToken,
     chain arena pNext (pNext this) l ->
     exists r seen,
       Visits.numTokensAhead fuel arena this = Ret (r, seen) /\
       numTokensAhead fuel arena this = Ret r /\ seen = l /\ NoDup seen) /\
  (forall this : LinkedToken,
     chain arena pNextData (pNextData this) l ->
     exists r seen,
       Visits.numDataTokensAhead fuel arena this = Ret (r, seen) /\
       numDataTokensAhead fuel arena this = Ret r /\ seen = l /\ NoDup seen) /\
  (forall (b : Block) (index : Z),
     chain arena pNext (pHeader b) l ->
     exists r seen,
       Visits.getHeaderTokenWithIndex fuel arena b index = Ret (r, seen) /\
       getHeaderTokenWithIndex fuel arena b index = Ret r /\
       seen `prefix_of` l /\ NoDup seen) /\
  (forall (b : Block) (name : Z),
     chain arena pNext (pValues b) l ->
     exists r seen,
       Visits.getValue fuel arena m b name = Ret (r, seen) /\
       getValue fuel arena m b name = Ret r /\
       seen `prefix_of` l /\ NoDup seen).
Proof.
  intros Hf. repeat split.
  - intros this Hc.
    destruct (count_ahead_visits _ _ _ _ Hc fuel 0 [] Hf) as [r Hr].
    exists r, l. repeat split.
    + exact Hr.
    + unfold numTokensAhead. rewrite <- (count_ahead_visits_erase _ _ _ _ _ []).
      now apply result_Ret with l.
    + now apply chain_NoDup in Hc.
  - intros this Hc.
    destruct (count_ahead_visits _ _ _ _ Hc fuel 0 [] Hf) as [r Hr].
    exists r, l. repeat split.
    + exact Hr.
    + unfold numDataTokensAhead. rewrite <- (count_ahead_visits_erase _ _ _ _ _ []).
      now apply result_Ret with l.
    + now apply chain_NoDup in Hc.
  - intros b index Hc.
    destruct (header_loop_visits _ index _ _ Hc fuel 0 [] Hf) as (r & seen & Hr & Hp).
    exists r, seen. repeat split.
    + exact Hr.
    + unfold getHeaderTokenWithIndex. rewrite <- (header_loop_visits_erase _ _ _ _ _ []).
      now apply result_Ret with seen.
    + exact Hp.
    + apply (prefix_NoDup _ _ Hp). now apply chain_NoDup in Hc.
  - intros b name Hc.
    destruct (value_loop_visits _ m name _ _ Hc fuel [] Hf) as (r & seen & Hr & Hp).
    exists r, seen. repeat split.
    + exact Hr.
    + unfold getValue. rewrite <- (value_loop_visits_erase _ _ _ _ _ []).
      now apply result_Ret with seen.
    + exact Hp.
    + apply (prefix_NoDup _ _ Hp). now apply chain_NoDup in Hc.
Qed.

Lemma chain_walks_terminate_witness :
  chain Sample.arena pNext (pValues Sample.block) [4; 6; 7; 11]%nat /\
  (exists r seen,
     Visits.getValue 4 Sample.arena Sample.mem Sample.block Sample.n_specialaction =
       Ret (r, seen) /\
     getValue 4 Sample.arena Sample.mem Sample.block Sample.n_specialaction = Ret r /\
     seen `prefix_of` [4; 6; 7; 11]%nat /\ NoDup seen).
Proof.
  assert (Hc : chain Sample.arena pNext (pValues Sample.block) [4; 6; 7; 11]%nat).
  { walk_chain. }
  assert (Hf : (length [4; 6; 7; 11]%nat <= 4)%nat) by (simpl; lia).
  split; [exact Hc|].
  destruct (chain_walks_terminate Sample.arena Sample.mem [4; 6; 7; 11]%nat 4 Hf)
    as (_ & _ & _ & H).
  exact (H Sample.block Sample.n_specialaction Hc).
Defined.

(** The walk for [SpecialAction] in the sample block stops at the third
    value. *)
Example getValue_visits_of_the_sample :
  Visits.getValue 4 Sample.arena Sample.mem Sample.block Sample.n_specialaction =
    Ret (Some 7%nat, [4; 6; 7]%nat).
Proof. reflexivity. Qed.

(* ===================================================================== *)
(** * Further properties of the query layer *)

(** ** Looking a value up by name *)

Lemma find_first {A : Type} (f : A -> bool) (l : list A) (v : A) :
  find f l = Some v <->
  exists pre post, l = pre ++ v :: post /\ f v = true /\ Forall (fun a => f a = false) pre.
Proof.
  induction l as [|x l IH]; simpl.
  - split; [discriminate|]. intros (pre & post & E & _). now destruct pre.
  - destruct (f x) eqn:Hx.
    + split.
      * intros [= ->]. exists [], l. repeat split; [exact Hx | constructor].
      * intros (pre & post & E & Hv & Hpre). destruct pre as [|y pre].
        -- now injection E as -> _.
        -- injection E as -> _. apply Forall_cons_1 in Hpre as [Hy _]. congruence.
    + rewrite IH. split.
      * intros (pre & post & -> & Hv & Hpre). exists (x :: pre), post.
        repeat split; [exact Hv | now constructor].
      * intros (pre & post & E & Hv & Hpre). destruct pre as [|y pre].
        -- injection E as -> _. congruence.
        -- injection E as -> ->. apply Forall_cons_1 in Hpre as [_ Hpre].
           now exists pre, post.
Qed.

Lemma find_nothing {A : Type} (f : A -> bool) (l : list A) :
  find f l = None <-> Forall (fun a => f a = false) l.
Proof.
  induction l as [|x l IH]; simpl.
  - split; [constructor | reflexivity].
  - destruct (f x) eqn:Hx.
    + split; [discriminate|]. intros H. apply Forall_cons_1 in H as [H _]. congruence.
    + rewrite IH. split; [now constructor | intros H; now apply Forall_cons_1 in H as [_ H]].
Qed.

(** X1. On a value chain that ends, [getValue] returns the first value
    whose name matches, and null exactly when no value matches: a value
    that repeats an earlier name is never returned. *)
Theorem getValue_returns_the_first_match (arena : Arena) (m : Mem) (b : Block) (name : Z)
    (l : list nat) (fuel : nat) :
  chain arena pNext (pValues b) l ->
  (length l <= fuel)%nat ->
  (forall v : nat,
     getValue fuel arena m b name = Ret (Some v) <->
     exists pre post,
       l = pre ++ v :: post /\ named arena m name v = true /\
       Forall (fun a => named arena m name a = false) pre) /\
  (getValue fuel arena m b name = Ret None <->
     Forall (fun a => named arena m name a = false) l).
Proof.
  intros Hc Hf. rewrite (getValue_chain _ _ _ _ _ _ Hc Hf). split.
  - intros v. rewrite <- find_first. split; [now intros [= ->] | now intros ->].
  - rewrite <- find_nothing. split; [now intros [= ->] | now intros ->].
Qed.

Lemma getValue_returns_the_first_match_witness :
  chain Sample.arena pNext (pValues Sample.block) [4; 6; 7; 11]%nat /\
  getValue 4 Sample.arena Sample.mem Sample.block Sample.n_specialaction = Ret (Some 7%nat) /\
  getValue 4 Sample.arena Sample.mem Sample.block Sample.n_secret = Ret None.
Proof.
  assert (Hc : chain Sample.arena pNext (pValues Sample.block) [4; 6; 7; 11]%nat)
    by walk_chain.
  assert (Hf : (length [4; 6; 7; 11]%nat <= 4)%nat) by (simpl; lia).
  split; [exact Hc|]. split.
  - apply (getValue_returns_the_first_match _ _ _ Sample.n_specialaction _ _ Hc Hf).
    exists [4; 6]%nat, [11]%nat. repeat split. repeat constructor.
  - apply (getValue_returns_the_first_match _ _ _ Sample.n_secret _ _ Hc Hf).
    repeat constructor.
Defined.

Lemma textEqualsIgnoreCase_same_up_to_case (m : Mem) (t : Token) (p1 p2 : Z)
    (s1 s2 : list ascii) :
  Forall (fun c => c <> NUL) (view_chars m (text t)) ->
  cstring m p1 s1 -> cstring m p2 s2 -> map toupper s1 = map toupper s2 ->
  textEqualsIgnoreCase m t p1 = textEqualsIgnoreCase m t p2.
Proof.
  intros Hn H1 H2 E. rewrite text_chars in Hn. unfold textEqualsIgnoreCase.
  apply eq_true_iff_eq.
  rewrite (textEquals_loop_spec m _ _ p1 s1 Hn H1), (textEquals_loop_spec m _ _ p2 s2 Hn H2).
  now rewrite E.
Qed.

Lemma find_agree {A : Type} (f g : A -> bool) (l : list A) :
  Forall (fun a => f a = g a) l -> find f l = find g l.
Proof.
  induction 1 as [|x l Hx Hl IH]; [reflexivity|]. simpl. now rewrite Hx, IH.
Qed.

(** X2. Looking a value up does not depend on the case of the name: two
    names that are the same up to ASCII case find the same value, and the
    single-value accessors return the same for both, as long as no value
    name of the block holds a NUL. *)
Theorem lookup_ignores_the_case_of_the_name
    {SmallStrT : Type} (SmallStr : Mem -> Z -> Z -> SmallStrT)
    (arena : Arena) (m : Mem) (b : Block) (l : list nat) (fuel : nat)
    (p1 p2 : Z) (s1 s2 : list ascii) :
  chain arena pNext (pValues b) l ->
  (length l <= fuel)%nat ->
  (forall (a : nat) (lt : LinkedToken), a ∈ l -> arena !! a = Some lt ->
     Forall (fun c => c <> NUL) (view_chars m (text (token lt)))) ->
  cstring m p1 s1 -> cstring m p2 s2 ->
  map toupper s1 = map toupper s2 ->
  getValue fuel arena m b p1 = getValue fuel arena m b p2 /\
  (forall dflt, getSingleNumberValue fuel arena m b p1 dflt =
                getSingleNumberValue fuel arena m b p2 dflt) /\
  (forall dflt, getSingleIntValue fuel arena m b p1 dflt =
                getSingleIntValue fuel arena m b p2 dflt) /\
  (forall dflt, getSingleSmallStringValue SmallStr fuel arena m b p1 dflt =
                getSingleSmallStringValue SmallStr fuel arena m b p2 dflt).
Proof.
  intros Hc Hf Hnn H1 H2 E.
  assert (Hv : getValue fuel arena m b p1 = getValue fuel arena m b p2).
  { rewrite !(getValue_chain _ _ _ _ _ _ Hc Hf). f_equal. apply find_agree.
    apply Forall_forall. intros a Ha. unfold named.
    destruct (arena !! a) as [lt|] eqn:Hlt; [|reflexivity].
    apply textEqualsIgnoreCase_same_up_to_case with s1 s2; try assumption.
    now apply (Hnn a lt). }
  assert (Hnum : forall dflt, getSingleNumberValue fuel arena m b p1 dflt =
                              getSingleNumberValue fuel arena m b p2 dflt).
  { intros dflt. unfold getSingleNumberValue. now rewrite Hv. }
  repeat split.
  - exact Hv.
  - exact Hnum.
  - intros dflt. unfold getSingleIntValue. now rewrite Hnum.
  - intros dflt. unfold getSingleSmallStringValue. now rewrite Hv.
Qed.

Lemma lookup_ignores_the_case_of_the_name_witness :
  chain Sample.arena pNext (pValues Sample.block) [4; 6; 7; 11]%nat /\
  cstring Spellings.mem Spellings.lower (Sample.chars "music") /\
  cstring Spellings.mem Spellings.mixed (Sample.chars "MuSiC") /\
  getValue 4 Sample.arena Spellings.mem Sample.block Spellings.lower =
  getValue 4 Sample.arena Spellings.mem Sample.block Spellings.mixed.
Proof.
  assert (Hc : chain Sample.arena pNext (pValues Sample.block) [4; 6; 7; 11]%nat)
    by walk_chain.
  assert (Hf : (length [4; 6; 7; 11]%nat <= 4)%nat) by (simpl; lia).
  assert (H1 : cstring Spellings.mem Spellings.lower (Sample.chars "music")).
  { repeat split; repeat constructor; discriminate. }
  assert (H2 : cstring Spellings.mem Spellings.mixed (Sample.chars "MuSiC")).
  { repeat split; repeat constructor; discriminate. }
  split; [exact Hc|]. split; [exact H1|]. split; [exact H2|].
  refine (proj1 (lookup_ignores_the_case_of_the_name Sample.Str Sample.arena Spellings.mem
                   Sample.block _ 4 _ _ _ _ Hc Hf _ H1 H2 eq_refl)).
  intros a lt Ha Hlt.
  repeat (apply elem_of_cons in Ha as [->|Ha];
          [injection Hlt as <-; repeat constructor; discriminate|]).
  inversion Ha.
Defined.

(** ** The data of a value *)

(** X3. When the first value of the given name has data, the number
    accessors read its first data token and never the default: a Number
    gives its stored number, [true] gives 1 and [false] gives 0, and a
    Number that holds an integer of at most 24 bits comes back from
    [getSingleIntValue] as that integer. *)
Theorem single_number_of_a_data_token (arena : Arena) (m : Mem) (b : Block) (name : Z)
    (l : list nat) (fuel : nat) (v d : nat) (lt dt : LinkedToken) :
  chain arena pNext (pValues b) l ->
  (length l <= fuel)%nat ->
  find (named arena m name) l = Some v ->
  arena !! v = Some lt ->
  pNextData lt = Some d ->
  arena !! d = Some dt ->
  (type (token dt) = TT_Number ->
     (forall dflt, getSingleNumberValue fuel arena m b name dflt = Ret (number (token dt))) /\
     (forall dflt, getSingleIntValue fuel arena m b name dflt =
                   int32_of_float (number (token dt))) /\
     (forall z dflt, number (token dt) = float_of_int z -> -16777216 <= z <= 16777216 ->
                     getSingleIntValue fuel arena m b name dflt = Ret z)) /\
  (type (token dt) = TT_True ->
     (forall dflt, getSingleNumberValue fuel arena m b name dflt = Ret f_one) /\
     (forall dflt, getSingleIntValue fuel arena m b name dflt = Ret 1)) /\
  (type (token dt) = TT_False ->
     (forall dflt, getSingleNumberValue fuel arena m b name dflt = Ret f_zero) /\
     (forall dflt, getSingleIntValue fuel arena m b name dflt = Ret 0)).
Proof.
  intros Hc Hf Hv Hlt Hd Hdt.
  assert (Hnum : forall dflt,
            getSingleNumberValue fuel arena m b name dflt = Ret (number_of dt dflt)).
  { intros dflt. now apply getSingleNumberValue_data with l v d lt. }
  assert (Hint : forall dflt,
            getSingleIntValue fuel arena m b name dflt =
            int32_of_float (number_of dt (float_of_int dflt))).
  { intros dflt. unfold getSingleIntValue. now rewrite Hnum. }
  unfold number_of in Hnum, Hint.
  split; [|split]; intros Hty; rewrite Hty in Hnum, Hint.
  - repeat split; [exact Hnum | exact Hint |].
    intros z dflt Hz Hr. rewrite Hint, Hz. now apply int32_of_float_of_int.
  - split; [exact Hnum | exact Hint].
  - split; [exact Hnum | exact Hint].
Qed.

Lemma single_number_of_a_data_token_witness :
  chain Sample.arena pNext (pValues Sample.block) [4; 6; 7; 11]%nat /\
  find (named Sample.arena Sample.mem Sample.n_music) [4; 6; 7; 11]%nat = Some 4%nat /\
  getSingleNumberValue 4 Sample.arena Sample.mem Sample.block Sample.n_music f_zero =
    Ret (float_of_int 5) /\
  getSingleIntValue 4 Sample.arena Sample.mem Sample.block Sample.n_music (-1) = Ret 5.
Proof.
  assert (Hc : chain Sample.arena pNext (pValues Sample.block) [4; 6; 7; 11]%nat)
    by walk_chain.
  assert (Hf : (length [4; 6; 7; 11]%nat <= 4)%nat) by (simpl; lia).
  split; [exact Hc|]. split; [reflexivity|].
  destruct (single_number_of_a_data_token Sample.arena Sample.mem Sample.block Sample.n_music
              _ 4 4 5
              (Sample.link (Sample.tok 20 25 TT_Identifier f_zero) (Some 6%nat) (Some 5%nat))
              (Sample.link (Sample.tok 28 29 TT_Number (float_of_int 5)) None None)
              Hc Hf eq_refl eq_refl eq_refl eq_refl) as [Hnumber _].
  destruct (Hnumber eq_refl) as (Hnum & _ & Hint).
  split; [apply Hnum | apply (Hint 5); [reflexivity | lia]].
Defined.

(** X4. When the first value of the given name has data,
    [getSingleSmallStringValue] returns the small string made from the text
    of the first data token, whatever the kind of that token, and never the
    default; for a String token that text lies between the quotes. *)
Theorem single_small_string_of_a_data_token
    {SmallStrT : Type} (SmallStr : Mem -> Z -> Z -> SmallStrT)
    (arena : Arena) (m : Mem) (b : Block) (name : Z)
    (l : list nat) (fuel : nat) (v d : nat) (lt dt : LinkedToken) :
  chain arena pNext (pValues b) l ->
  (length l <= fuel)%nat ->
  find (named arena m name) l = Some v ->
  arena !! v = Some lt ->
  pNextData lt = Some d ->
  arena !! d = Some dt ->
  (forall dflt, getSingleSmallStringValue SmallStr fuel arena m b name dflt =
                Ret (small_of_view SmallStr m (text (token dt)))) /\
  (type (token dt) = TT_String ->
     forall dflt, getSingleSmallStringValue SmallStr fuel arena m b name dflt =
       Ret (SmallStr m (pStr (begin (token dt)) + 1)
              (wrap_u32 (Z.max 0 (pStr (end_ (token dt)) - pStr (begin (token dt)) - 2))))).
Proof.
  intros Hc Hf Hv Hlt Hd Hdt.
  assert (H : forall dflt, getSingleSmallStringValue SmallStr fuel arena m b name dflt =
                           Ret (small_of_view SmallStr m (text (token dt)))).
  { intros dflt. now apply getSingleSmallStringValue_data with l v d lt. }
  split; [exact H|].
  intros Hty dflt. rewrite H. unfold small_of_view.
  rewrite text_data, text_size, textBegin_String, textEnd_String by assumption.
  do 3 f_equal. lia.
Qed.

Lemma single_small_string_of_a_data_token_witness :
  chain Sample.arena pNext (pValues Sample.block) [4; 6; 7; 11]%nat /\
  find (named Sample.arena Sample.mem Sample.n_sky) [4; 6; 7; 11]%nat = Some 11%nat /\
  getSingleSmallStringValue Sample.Str 4 Sample.arena Sample.mem Sample.block Sample.n_sky
    (Sample.chars "F_SKY1") = Ret (Sample.chars "SKY01").
Proof.
  assert (Hc : chain Sample.arena pNext (pValues Sample.block) [4; 6; 7; 11]%nat)
    by walk_chain.
  assert (Hf : (length [4; 6; 7; 11]%nat <= 4)%nat) by (simpl; lia).
  split; [exact Hc|]. split; [reflexivity|].
  destruct (single_small_string_of_a_data_token Sample.Str Sample.arena Sample.mem Sample.block
              Sample.n_sky _ 4 11 12
              (Sample.link (Sample.tok 77 80 TT_Identifier f_zero) None (Some 12%nat))
              (Sample.link (Sample.tok 83 90 TT_String f_zero) None None)
              Hc Hf eq_refl eq_refl eq_refl eq_refl) as [_ Hstring].
  exact (Hstring eq_refl (Sample.chars "F_SKY1")).
Defined.

(** ** Header positions that do not exist *)






(** ** Checking the header before reading it *)



(** ** Counting the tokens ahead *)

(** X8. [numTokensAhead] and [numDataTokensAhead] return the number of
    tokens that follow on the chain, as long as it is at most 2^31 - 1; in
    particular [numDataTokensAhead] of a value is the number of its data
    tokens, 0 for a flag. *)
Theorem tokens_ahead_are_counted (arena : Arena) (this : LinkedToken) (l : list nat)
    (fuel : nat) :
  (length l <= fuel)%nat ->
  Z.of_nat (length l) <= INT32_MAX ->
  (chain arena pNext (pNext this) l ->
     numTokensAhead fuel arena this = Ret (Z.of_nat (length l))) /\
  (chain arena pNextData (pNextData this) l ->
     numDataTokensAhead fuel arena this = Ret (Z.of_nat (length l))).
Proof.
  intros Hf Hmax.
  assert (E : wrap_i32 (Z.of_nat (length l)) = Z.of_nat (length l)).
  { apply wrap_i32_id. unfold INT32_MIN. lia. }
  split; intros Hc.
  - now rewrite (numTokensAhead_chain _ _ _ _ Hc Hf), E.
  - now rewrite (numDataTokensAhead_chain _ _ _ _ Hc Hf), E.
Qed.

Lemma tokens_ahead_are_counted_witness :
  chain Sample.arena pNextData (Some 8%nat) [8; 9; 10]%nat /\
  numDataTokensAhead 3 Sample.arena
    (Sample.link (Sample.tok 45 58 TT_Identifier f_zero) (Some 11%nat) (Some 8%nat)) = Ret 3.
Proof.
  assert (Hd : chain Sample.arena pNextData (Some 8%nat) [8; 9; 10]%nat) by walk_chain.
  split; [exact Hd|].
  refine (proj2 (tokens_ahead_are_counted Sample.arena
                   (Sample.link (Sample.tok 45 58 TT_Identifier f_zero) (Some 11%nat)
                                (Some 8%nat))
                   [8; 9; 10]%nat 3 _ _) Hd).
  - simpl. lia.
  - vm_compute. discriminate.
Defined.

(** ** Walks that return *)

Lemma count_ahead_returns (next : LinkedToken -> ptr) (arena : Arena) (fuel : nat) :
  forall (p : ptr) (c r : Z),
    count_ahead next fuel arena p c = Ret r ->
    exists l, chain arena next p l /\ (length l <= fuel)%nat.
Proof.
  induction fuel as [|fuel IH]; intros [a|] c r H.
  - discriminate H.
  - exists []. split; [apply chain_end | simpl; lia].
  - cbn [count_ahead deref] in H. destruct (arena !! a) as [lt|] eqn:Ha; [|discriminate H].
    cbn [bind] in H. destruct (IH _ _ _ H) as (l & Hc & Hl).
    exists (a :: l). split; [now apply chain_step with lt | simpl; lia].
  - exists []. split; [apply chain_end | simpl; lia].
Qed.

Lemma is_fatal_count_ahead (next : LinkedToken -> ptr) (arena : Arena) (fuel : nat) :
  forall (p : ptr) (c : Z), is_fatal (count_ahead next fuel arena p c) = false.
Proof.
  induction fuel as [|fuel IH]; intros [a|] c; try reflexivity.
  cbn [count_ahead]. apply is_fatal_bind; [apply is_fatal_deref | intros lt; apply IH].
Qed.

(** X9. [numTokensAhead] and [numDataTokensAhead] return a count exactly
    when the chain ahead reaches an absent link within the fuel: on a
    chain that runs into a cycle they never return, whatever the fuel. They
    raise no fatal error. *)
Theorem counting_returns_exactly_when_the_chain_ends (arena : Arena) (this : LinkedToken)
    (fuel : nat) :
  ((exists r, numTokensAhead fuel arena this = Ret r) <->
   (exists l, chain arena pNext (pNext this) l /\ (length l <= fuel)%nat)) /\
  ((exists r, numDataTokensAhead fuel arena this = Ret r) <->
   (exists l, chain arena pNextData (pNextData this) l /\ (length l <= fuel)%nat)) /\
  is_fatal (numTokensAhead fuel arena this) = false /\
  is_fatal (numDataTokensAhead fuel arena this) = false.
Proof.
  repeat split.
  - intros [r H]. now apply count_ahead_returns in H.
  - intros (l & Hc & Hf). eexists. exact (numTokensAhead_chain _ _ l _ Hc Hf).
  - intros [r H]. now apply count_ahead_returns in H.
  - intros (l & Hc & Hf). eexists. exact (numDataTokensAhead_chain _ _ l _ Hc Hf).
  - apply is_fatal_count_ahead.
  - apply is_fatal_count_ahead.
Qed.

Lemma counting_returns_exactly_when_the_chain_ends_witness :
  (exists r, numDataTokensAhead 3 Sample.arena
     (Sample.link (Sample.tok 45 58 TT_Identifier f_zero) (Some 11%nat) (Some 8%nat)) = Ret r) /\
  ~ (exists r, numTokensAhead 1000 Cyclic.arena Cyclic.first = Ret r).
Proof.
  split.
  - destruct (counting_returns_exactly_when_the_chain_ends Sample.arena
                (Sample.link (Sample.tok 45 58 TT_Identifier f_zero) (Some 11%nat)
                             (Some 8%nat)) 3) as (_ & [_ Hdata] & _).
    apply Hdata. exists [8; 9; 10]%nat. split; [walk_chain | simpl; lia].
  - intros H.
    destruct (counting_returns_exactly_when_the_chain_ends Cyclic.arena Cyclic.first 1000)
      as ([Hnext _] & _).
    destruct (Hnext H) as (l & Hc & _).
    exact (chain_head_fresh Cyclic.arena pNext 0 Cyclic.first l Hc eq_refl eq_refl).
Defined.

Lemma value_loop_not_found (arena : Arena) (m : Mem) (name : Z) (fuel : nat) :
  forall p : ptr,
    value_loop fuel arena m p name = Ret None ->
    exists l, chain arena pNext p l /\ (length l <= fuel)%nat /\
              Forall (fun a => named arena m name a = false) l.
Proof.
  induction fuel as [|fuel IH]; intros [a|] H.
  - discriminate H.
  - exists []. repeat split; [apply chain_end | simpl; lia | constructor].
  - cbn [value_loop deref] in H. destruct (arena !! a) as [lt|] eqn:Ha; [|discriminate H].
    cbn [bind] in H.
    destruct (textEqualsIgnoreCase m (token lt) name) eqn:Hm; [discriminate H|].
    destruct (IH _ H) as (l & Hc & Hl & Hno).
    exists (a :: l). repeat split; [now apply chain_step with lt | simpl; lia |].
    constructor; [|exact Hno]. unfold named. now rewrite Ha.
  - exists []. repeat split; [apply chain_end | simpl; lia | constructor].
Qed.

Lemma header_loop_not_found (arena : Arena) (index : Z) (fuel : nat) :
  forall (p : ptr) (i : Z),
    0 <= i <= index -> index < 4294967296 ->
    header_loop fuel arena p i index = Ret None ->
    exists l, chain arena pNext p l /\ (length l <= fuel)%nat /\
              i + Z.of_nat (length l) <= index.
Proof.
  induction fuel as [|fuel IH]; intros [a|] i Hi Hmax H.
  - discriminate H.
  - exists []. repeat split; [apply chain_end | simpl; lia | simpl; lia].
  - cbn [header_loop deref] in H. destruct (Z.eqb_spec i index) as [E|E]; [discriminate H|].
    destruct (arena !! a) as [lt|] eqn:Ha; [|discriminate H].
    cbn [bind] in H. rewrite wrap_u32_id in H by lia.
    destruct (IH _ (i + 1) ltac:(lia) Hmax H) as (l & Hc & Hl & Hle).
    exists (a :: l). repeat split; [now apply chain_step with lt | simpl; lia |].
    simpl length. lia.
  - exists []. repeat split; [apply chain_end | simpl; lia | simpl; lia].
Qed.

(** X10. A null result is given only after the whole chain has been
    walked: [getValue] returns null exactly when the value chain ends
    within the fuel and none of its names matches, and
    [getHeaderTokenWithIndex] returns null exactly when the header chain
    ends within the fuel and has no more than [index] tokens. *)
Theorem not_found_means_the_chain_was_walked (arena : Arena) (m : Mem) (b : Block)
    (fuel : nat) :
  (forall name : Z,
     getValue fuel arena m b name = Ret None <->
     exists l, chain arena pNext (pValues b) l /\ (length l <= fuel)%nat /\
               Forall (fun a => named arena m name a = false) l) /\
  (forall index : Z, 0 <= index < 4294967296 ->
     (getHeaderTokenWithIndex fuel arena b index = Ret None <->
      exists l, chain arena pNext (pHeader b) l /\ (length l <= fuel)%nat /\
                Z.of_nat (length l) <= index)).
Proof.
  split.
  - intros name. split.
    + apply value_loop_not_found.
    + intros (l & Hc & Hf & Hno). rewrite (getValue_chain _ _ _ _ _ _ Hc Hf).
      f_equal. now apply find_nothing.
  - intros index Hi. split.
    + intros H. apply header_loop_not_found in H; [|lia|lia].
      destruct H as (l & Hc & Hf & Hle). exists l. repeat split; try assumption; lia.
    + intros (l & Hc & Hf & Hle).
      rewrite (getHeaderTokenWithIndex_chain _ _ _ _ _ Hc Hf Hi).
      f_equal. apply lookup_ge_None_2. lia.
Qed.

Lemma not_found_means_the_chain_was_walked_witness :
  getHeaderTokenWithIndex 3 Sample.arena Sample.block 3 = Ret None /\
  forall (fuel : nat) (index : Z), 0 <= index < 4294967296 ->
    getHeaderTokenWithIndex fuel Cyclic.arena
      {| pType := None; pHeader := Some 0%nat; pValues := None |} index <> Ret None.
Proof.
  split.
  - apply (not_found_means_the_chain_was_walked Sample.arena Sample.mem Sample.block 3);
      [lia|].
    exists [1; 2; 3]%nat. repeat split; [walk_chain | simpl; lia | simpl; lia].
  - intros fuel index Hi H.
    apply (not_found_means_the_chain_was_walked Cyclic.arena Sample.mem _ fuel) in H;
      [|exact Hi].
    destruct H as (l & Hc & _).
    exact (chain_head_fresh Cyclic.arena pNext 0 Cyclic.first l Hc eq_refl eq_refl).
Defined.

(** ** The text of a token and its span *)

(** X11. The text of a token lies within its span: for a token whose end
    is not before its begin, and which is not an empty String token, the
    view returned by [text] starts at or after [begin] and ends at or
    before [end]. When the span is at most 2^31 - 1 characters long, so
    that the [int32_t] of [size] holds it, the length of the view is at
    most [size]. *)
Theorem text_lies_within_the_token (t : Token) :
  pStr (begin t) <= pStr (end_ t) ->
  (type t = TT_String -> pStr (begin t) < pStr (end_ t)) ->
  pStr (begin t) <= sv_data (text t) /\
  sv_data (text t) + sv_size (text t) <= pStr (end_ t) /\
  (pStr (end_ t) - pStr (begin t) <= INT32_MAX -> sv_size (text t) <= size t).
Proof.
  intros Hspan Hstr. rewrite text_data, text_size. unfold size.
  assert (Hsize : pStr (end_ t) - pStr (begin t) <= INT32_MAX ->
                  wrap_i32 (pStr (end_ t) - pStr (begin t)) = pStr (end_ t) - pStr (begin t)).
  { intros H. apply wrap_i32_id. unfold INT32_MIN. lia. }
  destruct (type t) eqn:Hty;
    try (rewrite textBegin_other, textEnd_other by congruence;
         repeat split; [lia | lia | intros H; rewrite (Hsize H); lia]).
  rewrite textBegin_String, textEnd_String by assumption.
  specialize (Hstr eq_refl).
  repeat split; [lia | lia | intros H; rewrite (Hsize H); lia].
Qed.

Lemma text_lies_within_the_token_witness :
  pStr (begin (Sample.tok 6 12 TT_String f_zero)) <= sv_data (text (Sample.tok 6 12 TT_String f_zero)) /\
  sv_data (text (Sample.tok 6 12 TT_String f_zero)) +
    sv_size (text (Sample.tok 6 12 TT_String f_zero)) <=
  pStr (end_ (Sample.tok 6 12 TT_String f_zero)).
Proof.
  destruct (text_lies_within_the_token (Sample.tok 6 12 TT_String f_zero)) as (H1 & H2 & _).
  - simpl. lia.
  - intros _. simpl. lia.
  - split; [exact H1 | exact H2].
Defined.

(** ** Integers in the header *)



(** ** Arenas without dangling links *)








(* ===================================================================== *)
(** ** The text of a fatal error *)

Lemma string_length_app (s1 s2 : string) :
  String.length (s1 ++ s2) = (String.length s1 + String.length s2)%nat.
Proof. induction s1 as [|c s1 IH]; simpl; [reflexivity | now rewrite IH]. Qed.

Lemma string_app_assoc (s1 s2 s3 : string) :
  ((s1 ++ s2) ++ s3 = s1 ++ (s2 ++ s3))%string.
Proof.
  induction s1 as [|c s1 IH]; [reflexivity|].
  change (String c ((s1 ++ s2) ++ s3) = String c (s1 ++ (s2 ++ s3)))%string.
  now rewrite IH.
Qed.

Lemma substring_whole (s : string) :
  forall n : nat, (String.length s <= n)%nat -> substring 0 n s = s.
Proof.
  induction s as [|c s IH]; intros [|n] H; simpl in *; try reflexivity; try lia.
  rewrite IH by lia. reflexivity.
Qed.

Lemma string_app_inv_head (p x y : string) : (p ++ x = p ++ y)%string -> x = y.
Proof. induction p as [|c p IH]; simpl; [tauto | intros [= H]; auto]. Qed.

Lemma pretty_N_char_digit (x : N) : (x < 10)%N -> digit (pretty_N_char x).
Proof.
  intros H.
  assert (E : (x = 0 \/ x = 1 \/ x = 2 \/ x = 3 \/ x = 4 \/ x = 5 \/ x = 6 \/ x = 7 \/
               x = 8 \/ x = 9)%N) by lia.
  unfold digit. repeat (destruct E as [->|E]; [vm_compute; split; discriminate|]).
  subst. vm_compute. split; discriminate.
Qed.

(** A number below 10^k is printed with at most k digits, and with digits
    only. *)
Lemma pretty_N_go_digits (k : nat) :
  forall (x : N) (s : string),
    (x < 10 ^ N.of_nat k)%N -> all_digits s ->
    all_digits (pretty_N_go x s) /\
    (String.length (pretty_N_go x s) <= k + String.length s)%nat.
Proof.
  induction k as [|k IH]; intros x s Hx Hs.
  - assert (x = 0%N) by (simpl in Hx; lia). subst. rewrite pretty_N_go_0.
    split; [exact Hs | lia].
  - destruct (N.eq_dec x 0%N) as [->|Hne].
    + rewrite pretty_N_go_0. split; [exact Hs | lia].
    + rewrite pretty_N_go_step by lia.
      destruct (IH (x `div` 10)%N (String (pretty_N_char (x `mod` 10)) s)) as [Hd Hl].
      * apply N.Div0.div_lt_upper_bound.
        rewrite Nat2N.inj_succ, N.pow_succ_r' in Hx. exact Hx.
      * split; [|exact Hs]. apply pretty_N_char_digit. apply N.mod_lt. discriminate.
      * split; [exact Hd|]. simpl in Hl. lia.
Qed.

Lemma pretty_u32 (z : Z) :
  0 <= z < 4294967296 ->
  all_digits (pretty z) /\ (String.length (pretty z) <= 10)%nat.
Proof.
  intros Hz. destruct z as [|p|p]; [| |lia].
  - vm_compute. split; [repeat split; discriminate | lia].
  - change (pretty (Zpos p)) with (pretty (Npos p)).
    unfold pretty, pretty_N. destruct (decide (Npos p = 0%N)) as [E|_]; [discriminate E|].
    destruct (pretty_N_go_digits 10 (Npos p) "") as [Hd Hl]; [|exact I|].
    + change (10 ^ N.of_nat 10)%N with 10000000000%N. lia.
    + split; [exact Hd | simpl in Hl; lia].
Qed.

Lemma wrap_u32_range (z : Z) : 0 <= wrap_u32 z < 4294967296.
Proof. apply Z.mod_pos_bound. lia. Qed.

(** The first line of the message, in full. *)
Lemma error_text {A : Type} (loc : TextLoc) (fmt : string) :
  error (A := A) loc fmt =
  Fatal ("Error parsing MAPINFO at line " ++ pretty (wrap_u32 (line loc + 1)) ++
         " column " ++ pretty (wrap_u32 (column loc + 1)) ++ "!" ++
         newline ++ substring 0 255 fmt)%string.
Proof.
  unfold error. f_equal.
  destruct (pretty_u32 _ (wrap_u32_range (line loc + 1))) as [_ Hl].
  destruct (pretty_u32 _ (wrap_u32_range (column loc + 1))) as [_ Hc].
  rewrite substring_whole.
  - rewrite !string_app_assoc. reflexivity.
  - rewrite !string_length_app. simpl String.length. lia.
Qed.

(** X14. For a message without conversions (no '%'), the two buffers of
    [error] never cut the location: the text passed to
    [FatalErrors::raiseF] is the whole line "Error parsing MAPINFO at line
    L column C!", then a line break, then the message, of which at most 255
    characters are kept. L and C are the line and the column of the
    location plus one (modulo 2^32). *)
Theorem error_text_is_the_location_and_the_message {A : Type} (loc : TextLoc) (fmt : string) :
  plain_text fmt ->
  error (A := A) loc fmt =
    Fatal ("Error parsing MAPINFO at line " ++ pretty (wrap_u32 (line loc + 1)) ++
           " column " ++ pretty (wrap_u32 (column loc + 1)) ++ "!" ++
           newline ++ substring 0 255 fmt)%string /\
  ((String.length fmt <= 255)%nat -> 0 <= line loc < 4294967295 ->
   0 <= column loc < 4294967295 ->
   error (A := A) loc fmt =
     Fatal ("Error parsing MAPINFO at line " ++ pretty (line loc + 1) ++
            " column " ++ pretty (column loc + 1) ++ "!" ++ newline ++ fmt)%string).
Proof.
  intros _. split; [apply error_text|].
  intros Hlen Hl Hc. rewrite error_text.
  rewrite !wrap_u32_id by lia. now rewrite substring_whole.
Qed.

Lemma error_text_is_the_location_and_the_message_witness :
  plain_text INVALID_HEADER /\
  error (A := unit) (Sample.loc 3) INVALID_HEADER =
    Fatal ("Error parsing MAPINFO at line 1 column 4!" ++ newline ++ INVALID_HEADER)%string.
Proof.
  assert (Hp : plain_text INVALID_HEADER).
  { unfold INVALID_HEADER. simpl. repeat split; discriminate. }
  split; [exact Hp|].
  destruct (error_text_is_the_location_and_the_message (A := unit) (Sample.loc 3)
              INVALID_HEADER Hp) as [_ H].
  apply H; simpl; lia.
Defined.

Lemma digits_then_other (c : ascii) (d1 : string) :
  ~ digit c ->
  forall d2 r1 r2 : string,
    all_digits d1 -> all_digits d2 ->
    (d1 ++ String c r1 = d2 ++ String c r2)%string -> d1 = d2 /\ r1 = r2.
Proof.
  intros Hc. induction d1 as [|x d1 IH]; intros [|y d2] r1 r2 H1 H2 E.
  - change (String c r1 = String c r2) in E. now injection E as ->.
  - change (String c r1 = String y (d2 ++ String c r2)%string) in E.
    injection E as -> _. destruct H2 as [H2 _]. contradiction.
  - change (String x (d1 ++ String c r1)%string = String c r2) in E.
    injection E as -> _. destruct H1 as [H1 _]. contradiction.
  - change (String x (d1 ++ String c r1)%string = String y (d2 ++ String c r2)%string) in E.
    injection E as -> E. destruct H1 as [_ H1], H2 as [_ H2].
    destruct (IH d2 r1 r2 H1 H2 E) as [-> ->]. now split.
Qed.

Lemma wrap_u32_succ_inj (x y : Z) :
  0 <= x < 4294967296 -> 0 <= y < 4294967296 ->
  wrap_u32 (x + 1) = wrap_u32 (y + 1) -> x = y.
Proof.
  unfold wrap_u32. intros Hx Hy E.
  destruct (Z.eq_dec x 4294967295) as [->|Hx1], (Z.eq_dec y 4294967295) as [->|Hy1];
    try reflexivity.
  - rewrite (Z.mod_small (y + 1)) in E by lia. change ((4294967295 + 1) mod 4294967296) with 0 in E.
    lia.
  - rewrite (Z.mod_small (x + 1)) in E by lia. change ((4294967295 + 1) mod 4294967296) with 0 in E.
    lia.
  - rewrite !Z.mod_small in E by lia. lia.
Qed.

(** X15. The text of a fatal error tells where it was raised: two errors
    with the same text were raised at the same line and the same column
    (both [uint32_t]), whatever their messages. *)
Theorem error_text_determines_the_location {A : Type} (loc1 loc2 : TextLoc)
    (fmt1 fmt2 : string) :
  0 <= line loc1 < 4294967296 -> 0 <= column loc1 < 4294967296 ->
  0 <= line loc2 < 4294967296 -> 0 <= column loc2 < 4294967296 ->
  error (A := A) loc1 fmt1 = error (A := A) loc2 fmt2 ->
  line loc1 = line loc2 /\ column loc1 = column loc2.
Proof.
  intros Hl1 Hc1 Hl2 Hc2 E. rewrite !error_text in E. injection E as E.
  apply string_app_inv_head in E.
  destruct (pretty_u32 _ (wrap_u32_range (line loc1 + 1))) as [Dl1 _].
  destruct (pretty_u32 _ (wrap_u32_range (line loc2 + 1))) as [Dl2 _].
  destruct (pretty_u32 _ (wrap_u32_range (column loc1 + 1))) as [Dc1 _].
  destruct (pretty_u32 _ (wrap_u32_range (column loc2 + 1))) as [Dc2 _].
  apply (digits_then_other " "%char) in E; try assumption;
    [|unfold digit; vm_compute; intros [H _]; now apply H].
  destruct E as [El E].
  apply (string_app_inv_head "column ") in E.
  apply (digits_then_other "!"%char) in E; try assumption;
    [|unfold digit; vm_compute; intros [H _]; now apply H].
  destruct E as [Ec _].
  apply (inj pretty) in El. apply (inj pretty) in Ec.
  split; now apply wrap_u32_succ_inj.
Qed.

Lemma error_text_determines_the_location_witness :
  error (A := unit) (Sample.loc 3) INVALID_HEADER =
  error (A := unit) {| line := 0; column := 3; pStr := 77 |} INVALID_HEADER /\
  line (Sample.loc 3) = 0 /\ column (Sample.loc 3) = 3.
Proof.
  split; [reflexivity|].
  apply (error_text_determines_the_location (A := unit) (Sample.loc 3)
           {| line := 0; column := 3; pStr := 77 |} INVALID_HEADER INVALID_HEADER);
    try (simpl; lia).
  reflexivity.
Defined.
